(** * cadastro-backend: the person registry API (server.js)

    A shallow embedding of the three versions of [server.js] found in the
    repository (PostgreSQL with the minimal schema, SQLite with the minimal
    schema, PostgreSQL with the extended schema) and of the part of the
    relational store that the handlers rely on: one table [pessoas], a
    generated identifier, NOT NULL and UNIQUE constraints, single statements
    and BEGIN / COMMIT / ROLLBACK on one session.

    The store is a collaborator of the program.  Its model follows the
    documented behaviour of the two engines for the statements that the
    handlers send; every statement of the source is transcribed below as a
    constructor of [Stmt] with the column list of its SQL text. *)

From Stdlib Require Import List String Ascii Arith Bool Lia DecimalString.
From Stdlib Require Import Sorted Permutation.
Import ListNotations.
Local Open Scope string_scope.
Local Open Scope list_scope.

Set Implicit Arguments.

(* ================================================================== *)
(** * Values, objects and errors *)
(* ================================================================== *)

(** A column value or a property of a request object: text, or nothing
    (SQL NULL; JavaScript [null] or [undefined], which the drivers send as
    NULL). *)
Definition Value := option string.

(** A JavaScript object / a result row: named properties. *)
Definition Obj := list (string * Value).

Fixpoint assoc (A : Type) (k : string) (l : list (string * A)) : option A :=
  match l with
  | [] => None
  | (k', v) :: l' => if String.eqb k k' then Some v else assoc k l'
  end.

(** [o.k]: a missing property reads as [undefined]. *)
Definition get (o : Obj) (k : string) : Value :=
  match assoc k o with
  | Some v => v
  | None => None
  end.

Definition is_null (v : Value) : bool :=
  match v with
  | None => true
  | Some _ => false
  end.

(** What a [catch (error)] block can look at: [error.code] (absent on a
    plain JavaScript TypeError) and [error.message]. *)
Record JsError := mkError { err_code : option string; err_message : string }.

(** [error.code === c] *)
Definition code_is (e : JsError) (c : string) : bool :=
  match err_code e with
  | Some c' => String.eqb c' c
  | None => false
  end.

Definition dquote : string := String (ascii_of_nat 34) EmptyString.
Definition quoted (s : string) : string := (dquote ++ s ++ dquote)%string.

(** [`${n}`] for a non-negative integer. *)
Definition decimal (n : nat) : string := NilEmpty.string_of_uint (Nat.to_uint n).

(* ================================================================== *)
(** * The table *)
(* ================================================================== *)

Record Column := mkColumn {
  col_name : string;
  col_notnull : bool;
  col_unique : bool
}.

(** A stored row: the generated [id] and one cell per declared column. *)
Record Row := mkRow { row_id : nat; row_cells : Obj }.

Definition notnull_cols (tbl : list Column) : list string :=
  map col_name (filter col_notnull tbl).

Definition unique_cols (tbl : list Column) : list string :=
  map col_name (filter col_unique tbl).

(** The natural key of the registry. *)
Definition key_col : string := "cnsCpf".

Definition row_key (r : Row) : Value := get (row_cells r) key_col.

Definition keys (rs : list Row) : list Value := map row_key rs.

(** The two engines the versions of the server talk to. *)
Inductive Dialect := Postgres | Sqlite.

(** ** Errors reported by the store *)

Definition not_null_violation (d : Dialect) (c : string) : JsError :=
  match d with
  | Postgres =>
      mkError (Some "23502")
        ("null value in column " ++ quoted c ++ " of relation "
           ++ quoted "pessoas" ++ " violates not-null constraint")
  | Sqlite =>
      mkError (Some "SQLITE_CONSTRAINT")
        ("SQLITE_CONSTRAINT: NOT NULL constraint failed: pessoas." ++ c)
  end.

Definition unique_violation (d : Dialect) (c : string) : JsError :=
  match d with
  | Postgres =>
      mkError (Some "23505")
        ("duplicate key value violates unique constraint "
           ++ quoted ("pessoas_" ++ c ++ "_key"))
  | Sqlite =>
      mkError (Some "SQLITE_CONSTRAINT")
        ("SQLITE_CONSTRAINT: UNIQUE constraint failed: pessoas." ++ c)
  end.

Definition bind_error (d : Dialect) : JsError :=
  match d with
  | Postgres =>
      mkError (Some "08P01")
        "bind message supplies the wrong number of parameters"
  | Sqlite =>
      mkError (Some "SQLITE_RANGE") "SQLITE_RANGE: column index out of range"
  end.

Definition undefined_column (d : Dialect) (c : string) : JsError :=
  match d with
  | Postgres =>
      mkError (Some "42703")
        ("column " ++ quoted c ++ " of relation " ++ quoted "pessoas"
           ++ " does not exist")
  | Sqlite =>
      mkError (Some "SQLITE_ERROR")
        ("SQLITE_ERROR: table pessoas has no column named " ++ c)
  end.

Definition no_transaction (what : string) : JsError :=
  mkError (Some "SQLITE_ERROR")
    ("SQLITE_ERROR: cannot " ++ what ++ " - no transaction is active").

Definition nested_transaction : JsError :=
  mkError (Some "SQLITE_ERROR")
    "SQLITE_ERROR: cannot start a transaction within a transaction".

(** ** Binding the parameters of a statement

    [INSERT INTO pessoas (c1, ..., cn) VALUES ($1, ..., $n)] sends the i-th
    element of the values array to the i-th listed column; a column of the
    table that the statement does not list stays NULL. *)
Definition bind_cells (tbl : list Column) (cols : list string)
    (values : list Value) : Obj :=
  map (fun c => (col_name c, get (combine cols values) (col_name c))) tbl.

(** [UPDATE pessoas SET c1 = $1, ..., cn = $n]: a listed column takes its
    parameter, any other keeps its cell. *)
Definition update_cells (tbl : list Column) (cols : list string)
    (values : list Value) (old : Obj) : Obj :=
  map (fun c =>
         (col_name c,
          match assoc (col_name c) (combine cols values) with
          | Some v => v
          | None => get old (col_name c)
          end)) tbl.

Definition unknown_col (tbl : list Column) (cols : list string)
    : option string :=
  find (fun c => negb (existsb (String.eqb c) (map col_name tbl))) cols.

(** The first NOT NULL column left without a value. *)
Definition find_null (tbl : list Column) (cells : Obj) : option string :=
  find (fun c => is_null (get cells c)) (notnull_cols tbl).

(** Two rows collide on column [c] when both hold the same text there
    (NULLs never collide). *)
Definition collides (c : string) (cells : Obj) (r : Row) : bool :=
  match get cells c, get (row_cells r) c with
  | Some a, Some b => String.eqb a b
  | _, _ => false
  end.

(** The first UNIQUE column on which [cells] collides with a stored row. *)
Definition find_conflict (tbl : list Column) (rs : list Row) (cells : Obj)
    : option string :=
  find (fun c => existsb (collides c cells) rs) (unique_cols tbl).

(** What one INSERT does to the table. *)
Inductive InsertOutcome :=
| Inserted (r : Row)
| Skipped
| Rejected (e : JsError).

(** The constraints are checked in the engines' order: the NOT NULL columns
    of the new row first, then the unique index.  [ignore] is the conflict
    clause of the statement: [ON CONFLICT (cnsCpf) DO NOTHING] in PostgreSQL
    (it covers the unique index only) and [INSERT OR IGNORE] in SQLite (it
    covers NOT NULL as well). *)
Definition insert_outcome (d : Dialect) (tbl : list Column) (rs : list Row)
    (new_id : nat) (cols : list string) (values : list Value) (ignore : bool)
    : InsertOutcome :=
  let cells := bind_cells tbl cols values in
  match find_null tbl cells with
  | Some c =>
      match d, ignore with
      | Sqlite, true => Skipped
      | _, _ => Rejected (not_null_violation d c)
      end
  | None =>
      match find_conflict tbl rs cells with
      | Some c => if ignore then Skipped else Rejected (unique_violation d c)
      | None => Inserted (mkRow new_id cells)
      end
  end.

Definition has_id (id : nat) (r : Row) : bool := (row_id r =? id)%nat.

(** What one UPDATE ... WHERE id = $n does. *)
Inductive UpdateOutcome :=
| Updated (r : Row) (rs : list Row)
| NoMatch
| UpdateRejected (e : JsError).

Definition update_outcome (d : Dialect) (tbl : list Column) (rs : list Row)
    (cols : list string) (values : list Value) (id : nat) : UpdateOutcome :=
  match find (has_id id) rs with
  | None => NoMatch
  | Some old =>
      let cells := update_cells tbl cols values (row_cells old) in
      match find_null tbl cells with
      | Some c => UpdateRejected (not_null_violation d c)
      | None =>
          let others := filter (fun r => negb (has_id id r)) rs in
          match find_conflict tbl others cells with
          | Some c => UpdateRejected (unique_violation d c)
          | None =>
              let r := mkRow id cells in
              Updated r (map (fun x => if has_id id x then r else x) rs)
          end
      end
  end.

(** A statement whose parameter count or column names do not fit the table
    is refused before it touches anything. *)
Definition check_stmt (d : Dialect) (tbl : list Column) (cols : list string)
    (values : list Value) : option JsError :=
  if negb (List.length cols =? List.length values)%nat then Some (bind_error d)
  else
    match unknown_col tbl cols with
    | Some c => Some (undefined_column d c)
    | None => None
    end.

(** [ORDER BY nome]: byte-wise comparison of the text; a NULL sorts last in
    PostgreSQL and first in SQLite. *)
Definition nome_leb (d : Dialect) (a b : Row) : bool :=
  match get (row_cells a) "nome", get (row_cells b) "nome" with
  | Some x, Some y => String.leb x y
  | None, None => true
  | None, Some _ => match d with Postgres => false | Sqlite => true end
  | Some _, None => match d with Postgres => true | Sqlite => false end
  end.

Fixpoint insert_sorted (d : Dialect) (r : Row) (rs : list Row) : list Row :=
  match rs with
  | [] => [r]
  | x :: rs' =>
      if nome_leb d x r then x :: insert_sorted d r rs' else r :: x :: rs'
  end.

Definition order_by_nome (d : Dialect) (rs : list Row) : list Row :=
  fold_left (fun acc r => insert_sorted d r acc) rs [].

(* ================================================================== *)
(** * The store seen from the server *)
(* ================================================================== *)

(** The statements that [server.js] sends.  [ignore] stands for the clause
    [ON CONFLICT (cnsCpf) DO NOTHING] / [OR IGNORE], [returning] for
    [RETURNING *]. *)
Inductive Stmt :=
| BEGIN
| COMMIT
| ROLLBACK
| INSERT (cols : list string) (values : list Value) (ignore returning : bool)
| UPDATE (cols : list string) (values : list Value) (id : nat)
| DELETE (id : nat)
| SELECT_ALL
| SELECT_BY_ID (id : nat).

(** The result object of a query: [rowCount] and [rows] of node-postgres;
    [changes] ([rowCount] here) and [lastID] of node-sqlite. *)
Record QueryResult := mkResult {
  rowCount : nat;
  result_rows : list Row;
  lastID : nat
}.

Inductive Event :=
| Connect
| Query (s : Stmt)
| Release.

(** The state a handler runs against: the table, the identifier sequence,
    the snapshot that an open transaction would roll back to, what the
    store will refuse next, and the calls made on the connection so far.

    [faults] is the environment's part: before each statement other than
    ROLLBACK the store takes the head of the list; [Some e] makes the
    statement fail with [e] and no effect (timeout, lost statement, disk
    full, a malformed parameter, ...), [None] or an exhausted list lets it
    run.  A session that is alive always honours ROLLBACK. *)
Record World := mkWorld {
  rows : list Row;
  seq : nat;
  tx : option (list Row * nat);
  faults : list (option JsError);
  trace : list Event
}.

Definition set_rows (rs : list Row) (w : World) : World :=
  mkWorld rs (seq w) (tx w) (faults w) (trace w).
Definition set_seq (n : nat) (w : World) : World :=
  mkWorld (rows w) n (tx w) (faults w) (trace w).
Definition set_tx (t : option (list Row * nat)) (w : World) : World :=
  mkWorld (rows w) (seq w) t (faults w) (trace w).
Definition set_faults (fs : list (option JsError)) (w : World) : World :=
  mkWorld (rows w) (seq w) (tx w) fs (trace w).
Definition log (e : Event) (w : World) : World :=
  mkWorld (rows w) (seq w) (tx w) (faults w) (trace w ++ [e]).

(** ** Awaited computations: a result or a thrown error, and the new state *)

Inductive Completion (A : Type) :=
| Normal (a : A)
| Throw (e : JsError).
Arguments Normal {A} a.
Arguments Throw {A} e.

Definition M (A : Type) := World -> Completion A * World.

Definition ret (A : Type) (a : A) : M A := fun w => (Normal a, w).

Definition throw (A : Type) (e : JsError) : M A := fun w => (Throw e, w).
Arguments throw {A} e.

Definition bind (A B : Type) (m : M A) (k : A -> M B) : M B :=
  fun w =>
    match m w with
    | (Normal a, w') => k a w'
    | (Throw e, w') => (Throw e, w')
    end.

(** [try { m } catch (error) { h error }] *)
Definition try_catch (A : Type) (m : M A) (h : JsError -> M A) : M A :=
  fun w =>
    match m w with
    | (Normal a, w') => (Normal a, w')
    | (Throw e, w') => h e w'
    end.

(** [try { m } finally { f }] *)
Definition try_finally (A : Type) (m : M A) (f : M unit) : M A :=
  fun w =>
    match m w with
    | (c, w') =>
        match f w' with
        | (Normal _, w'') => (c, w'')
        | (Throw e, w'') => (Throw e, w'')
        end
    end.

Notation "x <- c ;; k" := (bind c (fun x => k))
  (at level 61, c at next level, right associativity).
Notation "c ;; k" := (bind c (fun _ => k))
  (at level 61, right associativity).

(** [for (const x of xs) { s = body x s }] *)
Fixpoint for_of (A S : Type) (xs : list A) (body : A -> S -> M S) (s : S)
    : M S :=
  match xs with
  | [] => ret s
  | x :: xs' => s' <- body x s ;; for_of xs' body s'
  end.

(** An array literal whose elements are evaluated left to right. *)
Fixpoint array_of (A B : Type) (f : A -> M B) (xs : list A) : M (list B) :=
  match xs with
  | [] => ret []
  | x :: xs' => v <- f x ;; vs <- array_of f xs' ;; ret (v :: vs)
  end.

(** ** Running one statement *)

Definition no_rows : QueryResult := mkResult 0 [] 0.

(** What a statement that stores nothing does to the identifier sequence:
    PostgreSQL draws the identifier before it checks the row, and a drawn
    identifier is never given back; SQLite's AUTOINCREMENT counter moves
    only when a row is stored. *)
Definition drawn (d : Dialect) (w : World) : World :=
  match d with
  | Postgres => set_seq (S (seq w)) w
  | Sqlite => w
  end.

Definition run_insert (d : Dialect) (tbl : list Column) (cols : list string)
    (values : list Value) (ignore returning : bool) : M QueryResult :=
  fun w =>
    match check_stmt d tbl cols values with
    | Some e => (Throw e, w)
    | None =>
        let new_id := S (seq w) in
        match insert_outcome d tbl (rows w) new_id cols values ignore with
        | Inserted r =>
            (Normal (mkResult 1 (if returning then [r] else []) new_id),
             set_rows (rows w ++ [r]) (set_seq new_id w))
        | Skipped => (Normal no_rows, drawn d w)
        | Rejected e => (Throw e, drawn d w)
        end
    end.

(** Both UPDATE statements of the PostgreSQL versions end in RETURNING *;
    the SQLite version does not look at the rows of its result. *)

Definition run_update (d : Dialect) (tbl : list Column) (cols : list string)
    (values : list Value) (id : nat) : M QueryResult :=
  fun w =>
    match check_stmt d tbl cols values with
    | Some e => (Throw e, w)
    | None =>
        match update_outcome d tbl (rows w) cols values id with
        | Updated r rs => (Normal (mkResult 1 [r] 0), set_rows rs w)
        | NoMatch => (Normal no_rows, w)
        | UpdateRejected e => (Throw e, w)
        end
    end.

Definition run_delete (id : nat) : M QueryResult :=
  fun w =>
    let gone := filter (has_id id) (rows w) in
    (Normal (mkResult (List.length gone) [] 0),
     set_rows (filter (fun r => negb (has_id id r)) (rows w)) w).

Definition run_begin (d : Dialect) : M QueryResult :=
  fun w =>
    match tx w, d with
    | None, _ => (Normal no_rows, set_tx (Some (rows w, seq w)) w)
    | Some _, Postgres => (Normal no_rows, w)
    | Some _, Sqlite => (Throw nested_transaction, w)
    end.

Definition run_commit (d : Dialect) : M QueryResult :=
  fun w =>
    match tx w, d with
    | Some _, _ => (Normal no_rows, set_tx None w)
    | None, Postgres => (Normal no_rows, w)
    | None, Sqlite => (Throw (no_transaction "commit"), w)
    end.

(** ROLLBACK puts the table back as BEGIN found it.  PostgreSQL does not
    rewind the sequence; SQLite keeps its counter in a table, which goes
    back with the rest. *)
Definition run_rollback (d : Dialect) : M QueryResult :=
  fun w =>
    match tx w, d with
    | Some (rs, n), Postgres => (Normal no_rows, set_tx None (set_rows rs w))
    | Some (rs, n), Sqlite =>
        (Normal no_rows, set_tx None (set_seq n (set_rows rs w)))
    | None, Postgres => (Normal no_rows, w)
    | None, Sqlite => (Throw (no_transaction "rollback"), w)
    end.

Definition pop_fault (w : World) : World := set_faults (tl (faults w)) w.

Definition take_fault : M unit :=
  fun w =>
    match hd None (faults w) with
    | None => (Normal tt, pop_fault w)
    | Some e => (Throw e, pop_fault w)
    end.

Definition exec (d : Dialect) (tbl : list Column) (s : Stmt) : M QueryResult :=
  match s with
  | ROLLBACK => run_rollback d
  | BEGIN => take_fault ;; run_begin d
  | COMMIT => take_fault ;; run_commit d
  | INSERT cols values ignore returning =>
      take_fault ;; run_insert d tbl cols values ignore returning
  | UPDATE cols values id => take_fault ;; run_update d tbl cols values id
  | DELETE id => take_fault ;; run_delete id
  | SELECT_ALL =>
      take_fault ;;
      (fun w =>
         let rs := order_by_nome d (rows w) in
         (Normal (mkResult (List.length rs) rs 0), w))
  | SELECT_BY_ID id =>
      take_fault ;;
      (fun w =>
         let rs := filter (has_id id) (rows w) in
         (Normal (mkResult (List.length rs) rs 0), w))
  end.

(** A query on a connection: the call is recorded, then the store runs it. *)
Definition query (d : Dialect) (tbl : list Column) (s : Stmt) : M QueryResult :=
  fun w => exec d tbl s (log (Query s) w).

(* ================================================================== *)
(** * HTTP responses *)
(* ================================================================== *)

Inductive Body :=
| NoBody
| Json (fields : list (string * string))
| JsonRow (r : option Row)
| JsonRows (rs : list Row).

Record Response := mkResponse { status : nat; body : Body }.

(** [res.status(s).json({ message: m })] *)
Definition message_only (s : nat) (m : string) : Response :=
  mkResponse s (Json [("message", m)]).

(** [res.status(s).json({ message: m, error: error.message })] *)
Definition message_error (s : nat) (m : string) (error : JsError) : Response :=
  mkResponse s (Json [("message", m); ("error", err_message error)]).

(** [registro.k] inside the import loop: reading a property of [null]
    throws a TypeError. *)
Definition prop (registro : option Obj) (k : string) : M Value :=
  match registro with
  | Some o => ret (get o k)
  | None =>
      throw (mkError None
               ("Cannot read properties of null (reading '" ++ k ++ "')"))
  end.

Definition imported_message (n : nat) : string :=
  (decimal n ++ " registros importados com sucesso.")%string.

(** One turn of the import loop, the same text in the three versions up to
    the connection object [run] and the lists of the statement: build the
    values array, run the INSERT with its conflict clause, count the row if
    one was stored. *)
Definition import_one (run : Stmt -> M QueryResult)
    (cols fields : list string) (registro : option Obj)
    (importadosCount : nat) : M nat :=
  values <- array_of (prop registro) fields ;;
  result <- run (INSERT cols values true false) ;;
  ret (if (0 <? rowCount result)%nat then S importadosCount
       else importadosCount).

(** A request to one of the five routes; [:id] is taken as the number it
    denotes (an [id] that is not a number makes the store refuse the
    statement, which the fault schedule covers). *)
Inductive Request :=
| GET_pessoas
| POST_pessoas (req_body : Obj)
| PUT_pessoas (id : nat) (req_body : Obj)
| DELETE_pessoas (id : nat)
| POST_batch_import (req_body : list (option Obj)).

(* ================================================================== *)
(** * The PostgreSQL server (first and third version of server.js) *)
(* ================================================================== *)

(** The two PostgreSQL versions differ in the table and in the column and
    value lists of their statements only; the handlers are written once
    over these lists. *)
Section PgServer.

Variable tbl : list Column.
(** Column list and values array of the INSERT of [POST /api/pessoas]. *)
Variables create_cols create_fields : list string.
(** Assignments and values array of the UPDATE of [PUT /api/pessoas/:id]. *)
Variables update_cols update_fields : list string.
(** Column list and values array of the INSERT of the batch import. *)
Variables batch_cols batch_fields : list string.

(** [pool.query] runs one statement on a connection of its own;
    [pool.connect()] hands out the dedicated client of the batch import,
    [client.query] runs a statement on it, [client.release()] gives it
    back.  The pool is taken to have a connection to give. *)
Definition pool_query (s : Stmt) : M QueryResult := query Postgres tbl s.
Definition client_query (s : Stmt) : M QueryResult := query Postgres tbl s.
Definition pool_connect : M unit := fun w => (Normal tt, log Connect w).
Definition client_release : M unit := fun w => (Normal tt, log Release w).

(** [app.get('/api/pessoas')] *)
Definition get_pessoas : M Response :=
  try_catch
    (result <- pool_query SELECT_ALL ;;
     ret (mkResponse 200 (JsonRows (result_rows result))))
    (fun error => ret (message_error 500 "Erro ao buscar pessoas." error)).

(** The [catch] block of [POST /api/pessoas]. *)
Definition create_failed (error : JsError) : Response :=
  if code_is error "23505"
  then message_error 409 "Erro: CNS/CPF já cadastrado." error
  else message_error 500 "Erro ao criar pessoa." error.

(** [app.post('/api/pessoas')] *)
Definition post_pessoas (req_body : Obj) : M Response :=
  try_catch
    (let values := map (get req_body) create_fields in
     result <- pool_query (INSERT create_cols values false true) ;;
     ret (mkResponse 201 (JsonRow (hd_error (result_rows result)))))
    (fun error => ret (create_failed error)).

(** The [catch] block of [PUT /api/pessoas/:id]. *)
Definition update_failed (error : JsError) : Response :=
  if code_is error "23505"
  then message_error 409 "Erro: CNS/CPF já cadastrado em outro registro." error
  else message_error 500 "Erro ao atualizar pessoa." error.

(** [app.put('/api/pessoas/:id')] *)
Definition put_pessoas (id : nat) (req_body : Obj) : M Response :=
  try_catch
    (let values := map (get req_body) update_fields in
     result <- pool_query (UPDATE update_cols values id) ;;
     if (rowCount result =? 0)%nat
     then ret (message_only 404 "Pessoa não encontrada.")
     else ret (mkResponse 200 (JsonRow (hd_error (result_rows result)))))
    (fun error => ret (update_failed error)).

(** [app.delete('/api/pessoas/:id')] *)
Definition delete_pessoas (id : nat) : M Response :=
  try_catch
    (result <- pool_query (DELETE id) ;;
     if (rowCount result =? 0)%nat
     then ret (message_only 404 "Pessoa não encontrada.")
     else ret (mkResponse 204 NoBody))
    (fun error => ret (message_error 500 "Erro ao deletar pessoa." error)).

(** The [try] block of the batch import. *)
Definition import_body (novosRegistros : list (option Obj)) : M Response :=
  client_query BEGIN ;;
  importadosCount <-
    for_of novosRegistros (import_one client_query batch_cols batch_fields) 0 ;;
  client_query COMMIT ;;
  ret (message_only 201 (imported_message importadosCount)).

(** The [catch] block of the batch import. *)
Definition import_failed (error : JsError) : M Response :=
  client_query ROLLBACK ;;
  ret (message_error 500 "Erro durante a importação em massa." error).

(** [app.post('/api/pessoas/batch-import')] *)
Definition post_pessoas_batch_import (novosRegistros : list (option Obj))
    : M Response :=
  pool_connect ;;
  try_finally
    (try_catch (import_body novosRegistros) import_failed)
    client_release.

(** The routes of the API. *)
Definition handle (r : Request) : M Response :=
  match r with
  | GET_pessoas => get_pessoas
  | POST_pessoas req_body => post_pessoas req_body
  | PUT_pessoas id req_body => put_pessoas id req_body
  | DELETE_pessoas id => delete_pessoas id
  | POST_batch_import req_body => post_pessoas_batch_import req_body
  end.

End PgServer.

(* ================================================================== *)
(** * First version: PostgreSQL, minimal schema *)
(* ================================================================== *)

Module PgMinimal.

(** [CREATE TABLE IF NOT EXISTS pessoas (id SERIAL PRIMARY KEY, ...)] *)
Definition tbl : list Column :=
  [ mkColumn "nome" true false;
    mkColumn "email" true false;
    mkColumn "telefone" false false;
    mkColumn "cnsCpf" true true;
    mkColumn "nascimento" false false;
    mkColumn "cep" false false;
    mkColumn "logradouro" false false;
    mkColumn "numero" false false;
    mkColumn "bairro" false false ].

Definition create_cols : list string :=
  ["nome"; "email"; "telefone"; "cnsCpf"; "nascimento"; "cep";
   "logradouro"; "numero"; "bairro"].
Definition create_fields : list string :=
  ["nome"; "email"; "telefone"; "cnsCpf"; "nascimento"; "cep";
   "logradouro"; "numero"; "bairro"].

Definition update_cols : list string :=
  ["nome"; "email"; "telefone"; "cnsCpf"; "nascimento"; "cep";
   "logradouro"; "numero"; "bairro"].
Definition update_fields : list string :=
  ["nome"; "email"; "telefone"; "cnsCpf"; "nascimento"; "cep";
   "logradouro"; "numero"; "bairro"].

Definition batch_cols : list string :=
  ["nome"; "email"; "telefone"; "cnsCpf"; "nascimento"; "cep";
   "logradouro"; "numero"; "bairro"].
Definition batch_fields : list string :=
  ["nome"; "email"; "telefone"; "cnsCpf"; "nascimento"; "cep";
   "logradouro"; "numero"; "bairro"].

Definition get_pessoas : M Response := get_pessoas tbl.
Definition post_pessoas : Obj -> M Response :=
  post_pessoas tbl create_cols create_fields.
Definition put_pessoas : nat -> Obj -> M Response :=
  put_pessoas tbl update_cols update_fields.
Definition delete_pessoas : nat -> M Response := delete_pessoas tbl.
Definition post_pessoas_batch_import : list (option Obj) -> M Response :=
  post_pessoas_batch_import tbl batch_cols batch_fields.
Definition handle : Request -> M Response :=
  handle tbl create_cols create_fields update_cols update_fields
    batch_cols batch_fields.

End PgMinimal.

(* ================================================================== *)
(** * Third version: PostgreSQL, extended schema *)
(* ================================================================== *)

Module PgExtended.

Definition tbl : list Column :=
  [ mkColumn "data_cadastro" false false;
    mkColumn "nome" true false;
    mkColumn "email" false false;
    mkColumn "cnsCpf" true true;
    mkColumn "sexo" false false;
    mkColumn "data_nascimento" false false;
    mkColumn "nacionalidade" false false;
    mkColumn "raca_cor" false false;
    mkColumn "etnia" false false;
    mkColumn "cep" false false;
    mkColumn "logradouro" false false;
    mkColumn "numero" false false;
    mkColumn "bairro_corrego" false false;
    mkColumn "complemento" false false;
    mkColumn "cod_logradouro" false false;
    mkColumn "cidade" false false;
    mkColumn "uf" false false;
    mkColumn "telefone" false false;
    mkColumn "data_atendimento" false false;
    mkColumn "local_atendimento" false false;
    mkColumn "distancia_km" false false;
    mkColumn "procedimentos" false false;
    mkColumn "horario" false false;
    mkColumn "tipo_atendimento" false false;
    mkColumn "tipo_atendimento_cod" false false;
    mkColumn "transporte" false false;
    mkColumn "motorista" false false;
    mkColumn "hora_saida" false false;
    mkColumn "paciente_principal" false false;
    mkColumn "acompanhantes_vinculados" false false;
    mkColumn "observacao" false false ].

(** Column list of the INSERT of [POST /api/pessoas]: [telefone] is the
    18th column. *)
Definition create_cols : list string :=
  ["data_cadastro"; "nome"; "email"; "cnsCpf"; "sexo"; "data_nascimento";
   "nacionalidade"; "raca_cor"; "etnia"; "cep"; "logradouro"; "numero";
   "bairro_corrego"; "complemento"; "cod_logradouro"; "cidade"; "uf";
   "telefone"; "data_atendimento"; "local_atendimento"; "distancia_km";
   "procedimentos"; "horario"; "tipo_atendimento"; "tipo_atendimento_cod";
   "transporte"; "motorista"; "hora_saida"; "paciente_principal";
   "acompanhantes_vinculados"; "observacao"].
(** Its values array, in the order of the source. *)
Definition create_fields : list string :=
  ["data_cadastro"; "nome"; "email"; "cnsCpf"; "sexo"; "data_nascimento";
   "nacionalidade"; "raca_cor"; "etnia"; "cep"; "logradouro"; "numero";
   "bairro_corrego"; "complemento"; "cod_logradouro"; "cidade"; "uf";
   "telefone"; "data_atendimento"; "local_atendimento"; "distancia_km";
   "procedimentos"; "horario"; "tipo_atendimento"; "tipo_atendimento_cod";
   "transporte"; "motorista"; "hora_saida"; "paciente_principal";
   "acompanhantes_vinculados"; "observacao"].

Definition update_cols : list string :=
  ["data_cadastro"; "nome"; "email"; "cnsCpf"; "sexo"; "data_nascimento";
   "nacionalidade"; "raca_cor"; "etnia"; "cep"; "logradouro"; "numero";
   "bairro_corrego"; "complemento"; "cod_logradouro"; "cidade"; "uf";
   "telefone"; "data_atendimento"; "local_atendimento"; "distancia_km";
   "procedimentos"; "horario"; "tipo_atendimento"; "tipo_atendimento_cod";
   "transporte"; "motorista"; "hora_saida"; "paciente_principal";
   "acompanhantes_vinculados"; "observacao"].
Definition update_fields : list string :=
  ["data_cadastro"; "nome"; "email"; "cnsCpf"; "sexo"; "data_nascimento";
   "nacionalidade"; "raca_cor"; "etnia"; "cep"; "logradouro"; "numero";
   "bairro_corrego"; "complemento"; "cod_logradouro"; "cidade"; "uf";
   "telefone"; "data_atendimento"; "local_atendimento"; "distancia_km";
   "procedimentos"; "horario"; "tipo_atendimento"; "tipo_atendimento_cod";
   "transporte"; "motorista"; "hora_saida"; "paciente_principal";
   "acompanhantes_vinculados"; "observacao"].

(** Column list of the INSERT of the batch import: [telefone] is the 4th
    column. *)
Definition batch_cols : list string :=
  ["data_cadastro"; "nome"; "email"; "telefone"; "cnsCpf"; "sexo";
   "data_nascimento"; "nacionalidade"; "raca_cor"; "etnia"; "cep";
   "logradouro"; "numero"; "bairro_corrego"; "complemento";
   "cod_logradouro"; "cidade"; "uf"; "data_atendimento";
   "local_atendimento"; "distancia_km"; "procedimentos"; "horario";
   "tipo_atendimento"; "tipo_atendimento_cod"; "transporte"; "motorista";
   "hora_saida"; "paciente_principal"; "acompanhantes_vinculados";
   "observacao"].
(** Its values array: [registro.telefone] is the 4th element. *)
Definition batch_fields : list string :=
  ["data_cadastro"; "nome"; "email"; "telefone"; "cnsCpf"; "sexo";
   "data_nascimento"; "nacionalidade"; "raca_cor"; "etnia"; "cep";
   "logradouro"; "numero"; "bairro_corrego"; "complemento";
   "cod_logradouro"; "cidade"; "uf"; "data_atendimento";
   "local_atendimento"; "distancia_km"; "procedimentos"; "horario";
   "tipo_atendimento"; "tipo_atendimento_cod"; "transporte"; "motorista";
   "hora_saida"; "paciente_principal"; "acompanhantes_vinculados";
   "observacao"].

Definition get_pessoas : M Response := get_pessoas tbl.
Definition post_pessoas : Obj -> M Response :=
  post_pessoas tbl create_cols create_fields.
Definition put_pessoas : nat -> Obj -> M Response :=
  put_pessoas tbl update_cols update_fields.
Definition delete_pessoas : nat -> M Response := delete_pessoas tbl.
Definition post_pessoas_batch_import : list (option Obj) -> M Response :=
  post_pessoas_batch_import tbl batch_cols batch_fields.
Definition handle : Request -> M Response :=
  handle tbl create_cols create_fields update_cols update_fields
    batch_cols batch_fields.

End PgExtended.

(* ================================================================== *)
(** * Second version: SQLite, minimal schema *)
(* ================================================================== *)

Module SqliteMinimal.

(** [CREATE TABLE IF NOT EXISTS pessoas (id INTEGER PRIMARY KEY
    AUTOINCREMENT, ...)]: the columns of the first version. *)
Definition tbl : list Column := PgMinimal.tbl.

Definition cols : list string :=
  ["nome"; "email"; "telefone"; "cnsCpf"; "nascimento"; "cep";
   "logradouro"; "numero"; "bairro"].
Definition fields : list string :=
  ["nome"; "email"; "telefone"; "cnsCpf"; "nascimento"; "cep";
   "logradouro"; "numero"; "bairro"].

(** [db.run], [db.get], [db.all] and [db.exec] on the one open database. *)
Definition db_call (s : Stmt) : M QueryResult := query Sqlite tbl s.

Definition get_pessoas : M Response :=
  try_catch
    (pessoas <- db_call SELECT_ALL ;;
     ret (mkResponse 200 (JsonRows (result_rows pessoas))))
    (fun error => ret (message_error 500 "Erro ao buscar pessoas." error)).

Definition create_failed (error : JsError) : Response :=
  if code_is error "SQLITE_CONSTRAINT"
  then message_error 409 "Erro: CNS/CPF já cadastrado." error
  else message_error 500 "Erro ao criar pessoa." error.

Definition post_pessoas (req_body : Obj) : M Response :=
  let values := map (get req_body) fields in
  try_catch
    (result <- db_call (INSERT cols values false false) ;;
     novaPessoa <- db_call (SELECT_BY_ID (lastID result)) ;;
     ret (mkResponse 201 (JsonRow (hd_error (result_rows novaPessoa)))))
    (fun error => ret (create_failed error)).

Definition update_failed (error : JsError) : Response :=
  if code_is error "SQLITE_CONSTRAINT"
  then message_error 409 "Erro: CNS/CPF já cadastrado em outro registro." error
  else message_error 500 "Erro ao atualizar pessoa." error.

Definition put_pessoas (id : nat) (req_body : Obj) : M Response :=
  let values := map (get req_body) fields in
  try_catch
    (result <- db_call (UPDATE cols values id) ;;
     if (rowCount result =? 0)%nat
     then ret (message_only 404 "Pessoa não encontrada.")
     else
       pessoaAtualizada <- db_call (SELECT_BY_ID id) ;;
       ret (mkResponse 200 (JsonRow (hd_error (result_rows pessoaAtualizada)))))
    (fun error => ret (update_failed error)).

Definition delete_pessoas (id : nat) : M Response :=
  try_catch
    (result <- db_call (DELETE id) ;;
     if (rowCount result =? 0)%nat
     then ret (message_only 404 "Pessoa não encontrada.")
     else ret (mkResponse 204 NoBody))
    (fun error => ret (message_error 500 "Erro ao deletar pessoa." error)).

Definition post_pessoas_batch_import (novosRegistros : list (option Obj))
    : M Response :=
  try_catch
    (db_call BEGIN ;;
     importadosCount <-
       for_of novosRegistros (import_one db_call cols fields) 0 ;;
     db_call COMMIT ;;
     ret (message_only 201 (imported_message importadosCount)))
    (fun error =>
       db_call ROLLBACK ;;
       ret (message_error 500 "Erro durante a importação em massa." error)).

Definition handle (r : Request) : M Response :=
  match r with
  | GET_pessoas => get_pessoas
  | POST_pessoas req_body => post_pessoas req_body
  | PUT_pessoas id req_body => put_pessoas id req_body
  | DELETE_pessoas id => delete_pessoas id
  | POST_batch_import req_body => post_pessoas_batch_import req_body
  end.

End SqliteMinimal.

(** A handler starts on a session without an open transaction. *)
Definition start (rs : list Row) (n : nat) (fs : list (option JsError)) : World :=
  mkWorld rs n None fs [].

(* ================================================================== *)
(** * The vocabulary of the properties *)
(* ================================================================== *)

(** The row that a request object yields when every column takes the
    property of its own name. *)
Definition named_cells (tbl : list Column) (o : Obj) : Obj :=
  map (fun c => (col_name c, get o (col_name c))) tbl.

(** The natural keys present in the table. *)
Definition stored_keys (rs : list Row) : list string :=
  flat_map (fun r => match row_key r with Some k => [k] | None => [] end) rs.

(** At most one record for a natural-key value. *)
Definition unique_keys (rs : list Row) : Prop := NoDup (keys rs).

(** The candidates that meet their key for the first time: not among
    [seen], not carried by an earlier candidate of the list. *)
Fixpoint first_of_key (seen : list string) (objs : list Obj) : list Obj :=
  match objs with
  | [] => []
  | o :: rest =>
      match get o key_col with
      | Some k =>
          if existsb (String.eqb k) seen then first_of_key seen rest
          else o :: first_of_key (seen ++ [k]) rest
      | None => first_of_key seen rest
      end
  end.

(** A request object that leaves no NOT NULL column empty. *)
Definition storable (tbl : list Column) (o : Obj) : bool :=
  forallb (fun c => negb (is_null (get o c))) (notnull_cols tbl).

(** A statement lists its columns and its values in the same order, names
    columns of the table only and every one of them, and the table has the
    natural key as its one UNIQUE column, declared NOT NULL. *)
Definition statement_ok (tbl : list Column) (cols fields : list string) : Prop :=
  fields = cols /\
  unknown_col tbl cols = None /\
  (forall c, In c (map col_name tbl) -> In c cols) /\
  unique_cols tbl = [key_col] /\
  In key_col (notnull_cols tbl).

Definition is_insert (e : Event) : Prop :=
  match e with
  | Query (INSERT _ _ _ _) => True
  | _ => False
  end.

(** The five ways an INSERT of the request object [o] can end. *)
Inductive insert_step (d : Dialect) (tbl : list Column) (o : Obj)
    (ignore returning : bool) (w : World)
    : Completion QueryResult -> World -> Prop :=
| step_stored (k : string) :
    storable tbl o = true ->
    get o key_col = Some k ->
    existsb (String.eqb k) (stored_keys (rows w)) = false ->
    insert_step d tbl o ignore returning w
      (Normal (mkResult 1
                 (if returning then [mkRow (S (seq w)) (named_cells tbl o)]
                  else [])
                 (S (seq w))))
      (set_rows (rows w ++ [mkRow (S (seq w)) (named_cells tbl o)])
         (set_seq (S (seq w)) w))
| step_duplicate_skipped (k : string) :
    storable tbl o = true ->
    get o key_col = Some k ->
    existsb (String.eqb k) (stored_keys (rows w)) = true ->
    ignore = true ->
    insert_step d tbl o ignore returning w (Normal no_rows) (drawn d w)
| step_duplicate_rejected (k : string) :
    storable tbl o = true ->
    get o key_col = Some k ->
    existsb (String.eqb k) (stored_keys (rows w)) = true ->
    ignore = false ->
    insert_step d tbl o ignore returning w
      (Throw (unique_violation d key_col)) (drawn d w)
| step_null_skipped :
    storable tbl o = false ->
    d = Sqlite ->
    ignore = true ->
    insert_step d tbl o ignore returning w (Normal no_rows) (drawn d w)
| step_null_rejected (c : string) :
    storable tbl o = false ->
    d = Postgres \/ ignore = false ->
    In c (notnull_cols tbl) ->
    get o c = None ->
    insert_step d tbl o ignore returning w
      (Throw (not_null_violation d c)) (drawn d w).

(** The session right after [pool.connect()] and a BEGIN that went through:
    the snapshot is the table as the import found it. *)
Definition in_transaction (rs : list Row) (n : nat)
    (fs : list (option JsError)) : World :=
  mkWorld rs n (Some (rs, n)) (tl fs) [Connect; Query BEGIN].

Definition import_error : string := "Erro durante a importação em massa.".

(** The body of the import loop on the store of dialect [d]. *)
Definition turn (d : Dialect) (tbl : list Column) (cols fields : list string)
    : option Obj -> nat -> M nat :=
  import_one (query d tbl) cols fields.

(** The four ways the handler can end, with the state it leaves. *)
Inductive batch_outcome (tbl : list Column) (cols fields : list string)
    (cands : list (option Obj)) (rs : list Row) (n : nat)
    (fs : list (option JsError)) : Completion Response * World -> Prop :=
| batch_committed (cnt : nat) (w2 : World) :
    hd None fs = None ->
    for_of cands (turn Postgres tbl cols fields) 0 (in_transaction rs n fs) = (Normal cnt, w2) ->
    hd None (faults w2) = None ->
    batch_outcome tbl cols fields cands rs n fs
      (Normal (message_only 201 (imported_message cnt)),
       mkWorld (rows w2) (seq w2) None (tl (faults w2))
         (trace w2 ++ [Query COMMIT; Release]))
| batch_begin_refused (cause : JsError) :
    hd None fs = Some cause ->
    batch_outcome tbl cols fields cands rs n fs
      (Normal (message_error 500 import_error cause),
       mkWorld rs n None (tl fs)
         [Connect; Query BEGIN; Query ROLLBACK; Release])
| batch_candidate_failed (cause : JsError) (w2 : World) :
    hd None fs = None ->
    for_of cands (turn Postgres tbl cols fields) 0 (in_transaction rs n fs) = (Throw cause, w2) ->
    batch_outcome tbl cols fields cands rs n fs
      (Normal (message_error 500 import_error cause),
       mkWorld rs (seq w2) None (faults w2)
         (trace w2 ++ [Query ROLLBACK; Release]))
| batch_commit_refused (cnt : nat) (cause : JsError) (w2 : World) :
    hd None fs = None ->
    for_of cands (turn Postgres tbl cols fields) 0 (in_transaction rs n fs) = (Normal cnt, w2) ->
    hd None (faults w2) = Some cause ->
    batch_outcome tbl cols fields cands rs n fs
      (Normal (message_error 500 import_error cause),
       mkWorld rs (seq w2) None (tl (faults w2))
         (trace w2 ++ [Query COMMIT; Query ROLLBACK; Release])).


(** A request object of the minimal schema with its three mandatory
    properties given; [others] carries the optional ones. *)
Definition candidate (cnsCpf nome email : string) (others : Obj) : Obj :=
  ("cnsCpf", Some cnsCpf) :: ("nome", Some nome) :: ("email", Some email)
    :: others.


(** A run of [POST /api/pessoas] requests, one after the other. *)
Definition creates (bodies : list Obj) (w : World) : World :=
  fold_left (fun w o => snd (PgMinimal.post_pessoas o w)) bodies w.

(** The session of the SQLite server after its BEGIN TRANSACTION. *)
Definition sqlite_in_transaction (rs : list Row) (n : nat)
    (fs : list (option JsError)) : World :=
  mkWorld rs n (Some (rs, n)) (tl fs) [Query BEGIN].

(** The natural key of a request object is already in the table. *)
Definition key_taken (o : Obj) (rs : list Row) : bool :=
  match get o key_col with
  | Some k => existsb (String.eqb k) (stored_keys rs)
  | None => false
  end.

(** The table after an INSERT of the request object [o] that the store did
    not refuse for a reason of its own: one more row if the object can be
    stored and its key is new, the same table otherwise. *)
Definition rows_after_insert (tbl : list Column) (o : Obj) (rs : list Row)
    (n : nat) : list Row :=
  if storable tbl o && negb (key_taken o rs)
  then rs ++ [mkRow (S n) (named_cells tbl o)]
  else rs.


(** A table as the API leaves it: at most one record per cnsCpf, no two
    records with the same [id], no [id] beyond the sequence. *)
Definition table_ok (rs : list Row) (n : nat) : Prop :=
  unique_keys rs /\
  NoDup (map row_id rs) /\
  Forall (fun r => row_id r <= n) rs.

(** The state in which the next request finds the store: each request
    starts on a session of its own. *)
Definition next (handle : Request -> M Response) (r : Request) (w : World)
    : World :=
  snd (handle r (start (rows w) (seq w) (faults w))).

(** A run of requests, one after the other. *)
Definition serve (handle : Request -> M Response) (reqs : list Request)
    (w : World) : World :=
  fold_left (fun w r => next handle r w) reqs w.


(* ================================================================== *)
(** * Further vocabulary: listing, single records, start-up *)
(* ================================================================== *)


(** Some record of the table other than [id] carries the key [k]. *)
Definition key_of_another (id : nat) (k : string) (rs : list Row) : Prop :=
  exists r, In r rs /\ row_id r <> id /\ row_key r = Some k.

(** The table with the record [id] replaced by the cells [cells]. *)
Definition replaced (id : nat) (cells : Obj) (rs : list Row) : list Row :=
  map (fun x => if has_id id x then mkRow id cells else x) rs.

(** The table without the record [id]. *)
Definition without (id : nat) (rs : list Row) : list Row :=
  filter (fun r => negb (has_id id r)) rs.

(** An answer that reports a failure. *)
Definition is_failure (resp : Response) : Prop :=
  status resp = 404 \/ status resp = 409 \/ status resp = 500.

(** A candidate of a batch that PostgreSQL can store or skip: an object
    that leaves no NOT NULL column empty. *)
Definition importable (tbl : list Column) (c : option Obj) : bool :=
  match c with
  | Some o => storable tbl o
  | None => false
  end.

Definition is_object (c : option Obj) : bool :=
  match c with
  | Some _ => true
  | None => false
  end.

(** What makes a candidate pass the import loop of each store: PostgreSQL
    raises on an empty NOT NULL column, SQLite ignores the row. *)
Definition passes (d : Dialect) (tbl : list Column) (c : option Obj) : bool :=
  match d with
  | Postgres => importable tbl c
  | Sqlite => is_object c
  end.

(** The keys that a list of request objects carries. *)
Definition carried_keys (objs : list Obj) : list string :=
  flat_map (fun o => match get o key_col with Some k => [k] | None => [] end)
    objs.

(* ================================================================== *)
(** * Start-up *)
(* ================================================================== *)

(** What the start-up does, as the database and the process see it. *)
Inductive BootEvent :=
| PoolConnect
| CreateTable (cols : list Column)
| ClientRelease
| AppListen
| ConsoleError (e : JsError).

(** The database at start-up: the columns of [pessoas] if the table exists,
    the awaited calls it will refuse (one entry per call, as in [World]),
    and what has happened so far. *)
Record Host := mkHost {
  schema : option (list Column);
  refusals : list (option JsError);
  boot_log : list BootEvent
}.

Definition noted (e : BootEvent) (h : Host) : Host :=
  mkHost (schema h) (refusals h) (boot_log h ++ [e]).

(** An awaited call of the start-up: it is sent, then refused or done. *)
Definition awaited (e : BootEvent) (effect : Host -> Host) (h : Host)
    : Completion unit * Host :=
  let h1 := mkHost (schema h) (tl (refusals h)) (boot_log h ++ [e]) in
  match hd None (refusals h) with
  | Some err => (Throw err, h1)
  | None => (Normal tt, effect h1)
  end.

(** [CREATE TABLE IF NOT EXISTS pessoas (...)]: a table that exists is left
    as it is, whatever its columns. *)
Definition create_table_if_not_exists (cols : list Column) (h : Host) : Host :=
  match schema h with
  | Some _ => h
  | None => mkHost (Some cols) (refusals h) (boot_log h)
  end.

(** [setupDatabase] of the PostgreSQL versions: [pool.connect()], the
    CREATE TABLE, [client.release()]. *)
Definition setupDatabase (cols : list Column) (h : Host)
    : Completion unit * Host :=
  match awaited PoolConnect (fun h1 => h1) h with
  | (Throw e, h1) => (Throw e, h1)
  | (Normal _, h1) =>
      match awaited (CreateTable cols) (create_table_if_not_exists cols) h1 with
      | (Throw e, h2) => (Throw e, h2)
      | (Normal _, h2) => (Normal tt, noted ClientRelease h2)
      end
  end.

(** [setupDatabase] of the SQLite version: [open(...)], then the CREATE
    TABLE on the connection it keeps in [db]. *)
Definition sqlite_setupDatabase (cols : list Column) (h : Host)
    : Completion unit * Host :=
  match awaited PoolConnect (fun h1 => h1) h with
  | (Throw e, h1) => (Throw e, h1)
  | (Normal _, h1) =>
      awaited (CreateTable cols) (create_table_if_not_exists cols) h1
  end.

(** [setupDatabase().then(() => app.listen(...)).catch(err =>
    console.error(...))] *)
Definition startup (setup : Host -> Completion unit * Host) (h : Host)
    : Host :=
  match setup h with
  | (Normal _, h1) => noted AppListen h1
  | (Throw e, h1) => noted (ConsoleError e) h1
  end.

(** The third version answering on a database whose table has the columns
    [t]: the statements are those of its source, the table is the one it
    finds.  [PgExtended.handle] is the case of its own columns. *)
Definition extended_on (t : list Column) : Request -> M Response :=
  handle t PgExtended.create_cols PgExtended.create_fields
    PgExtended.update_cols PgExtended.update_fields
    PgExtended.batch_cols PgExtended.batch_fields.

(** A record of the table has the identifier [id]. *)
Definition has_record (id : nat) (rs : list Row) : bool :=
  existsb (has_id id) rs.

(* ================================================================== *)
(** * Lists of named values *)
(* ================================================================== *)

Lemma existsb_eqb_In (c : string) (l : list string) :
  existsb (String.eqb c) l = true <-> In c l.
Proof.
  rewrite existsb_exists. split.
  - intros [x [Hin Heq]]. apply String.eqb_eq in Heq. now subst.
  - intros Hin. exists c. split; [assumption | apply String.eqb_refl].
Qed.

Lemma assoc_named (F : string -> Value) (names : list string) (c : string) :
  In c names -> assoc c (map (fun x => (x, F x)) names) = Some (F c).
Proof.
  induction names as [|x names IH]; simpl; [tauto|].
  intros [-> | Hin].
  - now rewrite String.eqb_refl.
  - destruct (String.eqb_spec c x) as [-> | _]; auto.
Qed.

Lemma assoc_combine_map (f : string -> Value) (cols : list string) (c : string) :
  In c cols -> assoc c (combine cols (map f cols)) = Some (f c).
Proof.
  induction cols as [|x cols IH]; simpl; [tauto|].
  intros [-> | Hin].
  - now rewrite String.eqb_refl.
  - destruct (String.eqb_spec c x) as [-> | _]; auto.
Qed.

Lemma get_named_cells (tbl : list Column) (o : Obj) (c : string) :
  In c (map col_name tbl) -> get (named_cells tbl o) c = get o c.
Proof.
  intros Hin. unfold named_cells, get at 1.
  rewrite <- (map_map col_name (fun x => (x, get o x))).
  now rewrite assoc_named.
Qed.

Lemma notnull_cols_declared (tbl : list Column) (c : string) :
  In c (notnull_cols tbl) -> In c (map col_name tbl).
Proof.
  unfold notnull_cols. rewrite !in_map_iff.
  intros [x [Hx Hin]]. apply filter_In in Hin. exists x. tauto.
Qed.

Section Statements.

Variable tbl : list Column.
Variables cols fields : list string.
Hypothesis Hok : statement_ok tbl cols fields.

(** Positional binding agrees with binding by name. *)
Lemma bind_cells_named (o : Obj) :
  bind_cells tbl cols (map (get o) fields) = named_cells tbl o.
Proof.
  pose proof Hok as (Hf & _ & Hall & _). rewrite Hf.
  unfold bind_cells, named_cells. apply map_ext_in.
  intros c Hc. f_equal. unfold get at 1.
  rewrite assoc_combine_map; [reflexivity|].
  apply Hall, in_map, Hc.
Qed.

Lemma update_cells_named (o old : Obj) :
  update_cells tbl cols (map (get o) fields) old = named_cells tbl o.
Proof.
  pose proof Hok as (Hf & _ & Hall & _). rewrite Hf.
  unfold update_cells, named_cells. apply map_ext_in.
  intros c Hc. f_equal.
  rewrite assoc_combine_map; [reflexivity|].
  apply Hall, in_map, Hc.
Qed.

Lemma check_stmt_ok (d : Dialect) (o : Obj) :
  check_stmt d tbl cols (map (get o) fields) = None.
Proof.
  pose proof Hok as (Hf & Hknown & _). rewrite Hf.
  unfold check_stmt. rewrite length_map, Nat.eqb_refl. simpl.
  now rewrite Hknown.
Qed.

Lemma key_declared : In key_col (map col_name tbl).
Proof. apply notnull_cols_declared, Hok. Qed.

Lemma fields_not_empty : fields <> [].
Proof.
  pose proof Hok as (Hf & _ & Hall & _).
  intros Hnil. rewrite Hnil in Hf. rewrite <- Hf in Hall.
  exact (Hall _ key_declared).
Qed.

Lemma find_null_storable (o : Obj) :
  find_null tbl (named_cells tbl o) = None <-> storable tbl o = true.
Proof.
  unfold find_null, storable.
  assert (Hsub : forall c, In c (notnull_cols tbl) -> In c (map col_name tbl))
    by apply notnull_cols_declared.
  induction (notnull_cols tbl) as [|c l IH]; simpl; [tauto|].
  rewrite (get_named_cells _ _ _ (Hsub c (or_introl eq_refl))).
  destruct (is_null (get o c)); simpl.
  - split; discriminate.
  - apply IH. intros x Hx. apply Hsub. now right.
Qed.

Lemma storable_key (o : Obj) :
  storable tbl o = true -> exists k, get o key_col = Some k.
Proof.
  unfold storable. rewrite forallb_forall. intros H.
  specialize (H key_col (proj2 (proj2 (proj2 (proj2 Hok))))).
  destruct (get o key_col) as [k|]; [now exists k | discriminate].
Qed.

Lemma collides_stored (o : Obj) (k : string) (rs : list Row) :
  get o key_col = Some k ->
  existsb (collides key_col (named_cells tbl o)) rs
  = existsb (String.eqb k) (stored_keys rs).
Proof.
  intros Hk. induction rs as [|r rs IH]; simpl; [reflexivity|].
  rewrite IH. unfold collides at 1.
  rewrite (get_named_cells _ _ _ key_declared), Hk.
  fold (row_key r). destruct (row_key r) as [k'|]; simpl; reflexivity.
Qed.

Lemma find_conflict_stored (o : Obj) (k : string) (rs : list Row) :
  get o key_col = Some k ->
  find_conflict tbl rs (named_cells tbl o)
  = if existsb (String.eqb k) (stored_keys rs) then Some key_col else None.
Proof.
  intros Hk. unfold find_conflict.
  pose proof Hok as (_ & _ & _ & Hu & _). rewrite Hu. simpl.
  now rewrite (collides_stored _ _ Hk).
Qed.

End Statements.

(* ================================================================== *)
(** * One INSERT, case by case *)
(* ================================================================== *)

Section InsertStep.

Variable tbl : list Column.
Variables cols fields : list string.
Hypothesis Hok : statement_ok tbl cols fields.

Lemma find_null_named (o : Obj) (c : string) :
  find_null tbl (named_cells tbl o) = Some c ->
  In c (notnull_cols tbl) /\ get o c = None.
Proof.
  unfold find_null. intros H. apply find_some in H.
  destruct H as [Hin Hnull]. split; [assumption|].
  rewrite get_named_cells in Hnull by now apply notnull_cols_declared.
  now destruct (get o c).
Qed.

Lemma run_insert_step (d : Dialect) (o : Obj) (ignore returning : bool)
    (w : World) :
  insert_step d tbl o ignore returning w
    (fst (run_insert d tbl cols (map (get o) fields) ignore returning w))
    (snd (run_insert d tbl cols (map (get o) fields) ignore returning w)).
Proof.
  unfold run_insert. rewrite (check_stmt_ok Hok).
  unfold insert_outcome. rewrite (bind_cells_named Hok).
  destruct (find_null tbl (named_cells tbl o)) as [c|] eqn:Hnull.
  - assert (Hst : storable tbl o = false).
    { destruct (storable tbl o) eqn:E; [|reflexivity].
      apply find_null_storable in E. congruence. }
    apply find_null_named in Hnull. destruct Hnull as [Hin Hc].
    destruct d, ignore; simpl;
      first [ now apply step_null_skipped
            | apply step_null_rejected with (c := c); auto ].
  - assert (Hst : storable tbl o = true)
      by now apply find_null_storable.
    destruct (storable_key Hok _ Hst) as [k Hk].
    rewrite (find_conflict_stored Hok _ _ Hk).
    destruct (existsb (String.eqb k) (stored_keys (rows w))) eqn:Hdup.
    + destruct ignore; simpl.
      * destruct d; now apply step_duplicate_skipped with (k := k).
      * destruct d; now apply step_duplicate_rejected with (k := k).
    + simpl. now apply step_stored with (k := k).
Qed.

End InsertStep.

(** ** Queries and the fault schedule *)

Lemma query_insert (d : Dialect) (tbl : list Column) (cols : list string)
    (values : list Value) (ignore returning : bool) (w : World) :
  query d tbl (INSERT cols values ignore returning) w
  = match hd None (faults w) with
    | Some e =>
        (Throw e, pop_fault (log (Query (INSERT cols values ignore returning)) w))
    | None =>
        run_insert d tbl cols values ignore returning
          (pop_fault (log (Query (INSERT cols values ignore returning)) w))
    end.
Proof.
  unfold query, exec, bind, take_fault. simpl.
  destruct (hd None (faults w)); reflexivity.
Qed.

Lemma query_begin (d : Dialect) (tbl : list Column) (w : World) :
  query d tbl BEGIN w
  = match hd None (faults w) with
    | Some e => (Throw e, pop_fault (log (Query BEGIN) w))
    | None => run_begin d (pop_fault (log (Query BEGIN) w))
    end.
Proof.
  unfold query, exec, bind, take_fault. simpl.
  destruct (hd None (faults w)); reflexivity.
Qed.

Lemma query_commit (d : Dialect) (tbl : list Column) (w : World) :
  query d tbl COMMIT w
  = match hd None (faults w) with
    | Some e => (Throw e, pop_fault (log (Query COMMIT) w))
    | None => run_commit d (pop_fault (log (Query COMMIT) w))
    end.
Proof.
  unfold query, exec, bind, take_fault. simpl.
  destruct (hd None (faults w)); reflexivity.
Qed.

Lemma query_rollback (d : Dialect) (tbl : list Column) (w : World) :
  query d tbl ROLLBACK w = run_rollback d (log (Query ROLLBACK) w).
Proof. reflexivity. Qed.

(** From here on a query is taken apart by the lemmas above only. *)
Arguments query : simpl never.

Lemma array_of_prop_some (o : Obj) (fields : list string) (w : World) :
  array_of (prop (Some o)) fields w = (Normal (map (get o) fields), w).
Proof.
  induction fields as [|f fields IH]; simpl; [reflexivity|].
  unfold bind at 1. simpl. unfold ret at 1. unfold bind at 1.
  now rewrite IH.
Qed.

Lemma array_of_prop_world (registro : option Obj) (fields : list string)
    (w : World) :
  snd (array_of (prop registro) fields w) = w.
Proof.
  destruct registro as [o|].
  - now rewrite array_of_prop_some.
  - destruct fields; reflexivity.
Qed.

Lemma run_insert_frame (d : Dialect) (tbl : list Column) (cols : list string)
    (values : list Value) (ignore returning : bool) (w : World) :
  let r := run_insert d tbl cols values ignore returning w in
  tx (snd r) = tx w /\ trace (snd r) = trace w /\ faults (snd r) = faults w.
Proof.
  unfold run_insert.
  destruct (check_stmt d tbl cols values); [simpl; auto|].
  destruct (insert_outcome d tbl (rows w) (S (seq w)) cols values ignore);
    destruct d; simpl; auto.
Qed.

(* ================================================================== *)
(** * The import loop *)
(* ================================================================== *)

Section ImportLoop.

Variable d : Dialect.
Variable tbl : list Column.
Variables cols fields : list string.


Lemma import_one_some (o : Obj) (cnt : nat) (w : World) :
  (turn d tbl cols fields) (Some o) cnt w
  = let s := INSERT cols (map (get o) fields) true false in
    match hd None (faults w) with
    | Some e => (Throw e, pop_fault (log (Query s) w))
    | None =>
        match run_insert d tbl cols (map (get o) fields) true false
                (pop_fault (log (Query s) w)) with
        | (Normal result, w') =>
            (Normal (if (0 <? rowCount result)%nat then S cnt else cnt), w')
        | (Throw e, w') => (Throw e, w')
        end
    end.
Proof.
  unfold turn, import_one, bind. rewrite array_of_prop_some, query_insert.
  destruct (hd None (faults w)); [reflexivity|].
  destruct (run_insert _ _ _ _ _ _ _) as [[result|e] w']; reflexivity.
Qed.

Lemma null_turn_throws (cnt : nat) (w : World) :
  fields <> [] ->
  exists f,
    (turn d tbl cols fields) None cnt w
    = (Throw (mkError None
                ("Cannot read properties of null (reading '" ++ f ++ "')")), w).
Proof.
  unfold turn, import_one. intros Hne.
  destruct fields as [|f rest]; [congruence|]. now exists f.
Qed.

(** A turn of the loop leaves the transaction alone and records exactly
    its INSERT, if it got that far. *)
Lemma import_one_frame (registro : option Obj) (cnt : nat) (w : World) :
  tx (snd ((turn d tbl cols fields) registro cnt w)) = tx w /\
  exists mid,
    trace (snd ((turn d tbl cols fields) registro cnt w)) = trace w ++ mid /\ Forall is_insert mid.
Proof.
  unfold turn, import_one, bind.
  pose proof (array_of_prop_world registro fields w) as Hw.
  destruct (array_of (prop registro) fields w) as [[values|e] w1];
    simpl in Hw; subst w1.
  - rewrite query_insert.
    destruct (hd None (faults w)) as [e|].
    + simpl. split; [reflexivity|].
      exists [Query (INSERT cols values true false)].
      split; [reflexivity | repeat constructor].
    + pose proof (run_insert_frame d tbl cols values true false
                    (pop_fault (log (Query (INSERT cols values true false)) w)))
        as (Htx & Htr & _).
      destruct (run_insert _ _ _ _ _ _ _) as [[result|e] w']; simpl in *;
        (split; [assumption|]);
        exists [Query (INSERT cols values true false)];
        (split; [assumption | repeat constructor]).
  - simpl. split; [reflexivity|]. exists []. rewrite app_nil_r. auto.
Qed.

Lemma import_loop_frame (cands : list (option Obj)) :
  forall (cnt : nat) (w : World),
    tx (snd (for_of cands (turn d tbl cols fields) cnt w)) = tx w /\
    exists mid,
      trace (snd (for_of cands (turn d tbl cols fields) cnt w)) = trace w ++ mid /\
      Forall is_insert mid.
Proof.
  induction cands as [|registro cands IH]; intros cnt w.
  - simpl. split; [reflexivity|]. exists []. rewrite app_nil_r. auto.
  - simpl. unfold bind.
    destruct (import_one_frame registro cnt w) as (Htx & mid & Htr & Hmid).
    destruct ((turn d tbl cols fields) registro cnt w) as [[cnt1|e] w1]; simpl in *.
    + destruct (IH cnt1 w1) as (Htx' & mid' & Htr' & Hmid').
      split; [congruence|]. exists (mid ++ mid').
      rewrite Htr', Htr, app_assoc. split; [reflexivity|].
      apply Forall_app; auto.
    + split; [assumption|]. exists mid. auto.
Qed.

Hypothesis Hok : statement_ok tbl cols fields.

Lemma row_key_named (id : nat) (o : Obj) :
  row_key (mkRow id (named_cells tbl o)) = get o key_col.
Proof.
  unfold row_key. simpl. apply get_named_cells, (key_declared Hok).
Qed.

Lemma stored_keys_snoc (rs : list Row) (id : nat) (o : Obj) (k : string) :
  get o key_col = Some k ->
  stored_keys (rs ++ [mkRow id (named_cells tbl o)]) = stored_keys rs ++ [k].
Proof.
  intros Hk. unfold stored_keys. rewrite flat_map_app. simpl.
  now rewrite row_key_named, Hk.
Qed.

(** What a loop that ran to its end has done: every candidate was an
    object; the rows it added are, in order, those of the candidates that
    could be stored and met their key for the first time; the counter
    went up by their number. *)
Lemma import_loop_done (cands : list (option Obj)) :
  forall (cnt : nat) (w : World) (cnt' : nat) (w' : World),
    for_of cands (turn d tbl cols fields) cnt w = (Normal cnt', w') ->
    exists objs new,
      cands = map Some objs /\
      rows w' = rows w ++ new /\
      map row_cells new
      = map (named_cells tbl)
          (first_of_key (stored_keys (rows w)) (filter (storable tbl) objs)) /\
      cnt' = cnt + List.length new /\
      (d = Postgres -> forallb (storable tbl) objs = true).
Proof.
  induction cands as [|registro cands IH]; intros cnt w cnt' w' Hrun.
  - simpl in Hrun. injection Hrun as <- <-.
    exists [], []. rewrite app_nil_r. simpl. auto.
  - simpl in Hrun. unfold bind in Hrun.
    destruct registro as [o|].
    2:{ pose proof (fields_not_empty Hok) as Hne.
        destruct (null_turn_throws cnt w Hne) as [e He].
        rewrite He in Hrun. discriminate. }
    rewrite import_one_some in Hrun. cbv zeta in Hrun.
    destruct (hd None (faults w)) as [e|]; [discriminate|].
    pose proof (run_insert_step Hok d o true false
                  (pop_fault (log (Query (INSERT cols (map (get o) fields)
                                            true false)) w))) as Hstep.
    destruct (run_insert _ _ _ _ _ _ _) as [c1 w1]. simpl in Hstep.
    inversion Hstep as [k Hst Hk Hnew | k Hst Hk Hdup _ | k Hst Hk Hdup Hig
                        | Hst Hd _ | c Hst Hor Hin Hc]; subst c1 w1.
    + (* a row was stored *)
      apply IH in Hrun.
      destruct Hrun as (objs & new & -> & Hrows & Hcells & -> & Hpg).
      simpl in Hrows, Hcells.
      exists (o :: objs),
        (mkRow (S (seq w)) (named_cells tbl o) :: new).
      simpl in Hnew.
      simpl. rewrite Hst, Hrows, <- app_assoc. simpl.
      rewrite Hk, Hnew. simpl.
      rewrite stored_keys_snoc with (k := k) in Hcells by assumption.
      rewrite Hcells. repeat split; auto; lia.
    + (* the key was taken: skipped *)
      apply IH in Hrun.
      destruct Hrun as (objs & new & -> & Hrows & Hcells & -> & Hpg).
      assert (Hr : rows (drawn d (pop_fault (log (Query (INSERT cols
                     (map (get o) fields) true false)) w))) = rows w)
        by (destruct d; reflexivity).
      rewrite Hr in Hrows, Hcells. simpl in Hdup.
      exists (o :: objs), new.
      simpl. rewrite Hst. simpl. rewrite Hk, Hdup. auto.
    + discriminate.
    + (* SQLite: a NOT NULL column was empty, the row was ignored *)
      apply IH in Hrun.
      destruct Hrun as (objs & new & -> & Hrows & Hcells & -> & Hpg).
      subst d. simpl in Hrows, Hcells.
      exists (o :: objs), new.
      simpl. rewrite Hst. repeat split; auto. discriminate.
    + discriminate.
Qed.

End ImportLoop.


(* ================================================================== *)
(** * The batch import of the PostgreSQL server, outcome by outcome *)
(* ================================================================== *)

Section PgBatch.

Variable tbl : list Column.
Variables cols fields : list string.


Lemma batch_import_outcome (cands : list (option Obj)) (rs : list Row)
    (n : nat) (fs : list (option JsError)) :
  batch_outcome tbl cols fields cands rs n fs (post_pessoas_batch_import tbl cols fields cands (start rs n fs)).
Proof.
  unfold post_pessoas_batch_import, bind, pool_connect,
    try_finally, try_catch, import_body, import_failed, client_release, bind.
  change (import_one (client_query tbl) cols fields) with (turn Postgres tbl cols fields).
  unfold client_query. rewrite query_begin. simpl.
  destruct (hd None fs) as [cause|] eqn:Hbegin.
  - (* BEGIN refused *)
    rewrite query_rollback. unfold run_rollback. simpl.
    now apply batch_begin_refused.
  - unfold run_begin. simpl.
    change (set_tx _ _) with (in_transaction rs n fs).
    pose proof (import_loop_frame Postgres tbl cols fields cands 0
                  (in_transaction rs n fs)) as [Htx _].
    
    destruct (for_of cands (turn Postgres tbl cols fields) 0 (in_transaction rs n fs))
      as [[cnt|cause] w2] eqn:Hloop; simpl in Htx;
      destruct w2 as [rows2 seq2 tx2 faults2 trace2]; simpl in Htx; subst tx2.
    + rewrite query_commit. simpl.
      destruct (hd None faults2) as [cause|] eqn:Hcommit.
      * rewrite query_rollback. unfold run_rollback. simpl.
        unfold log, set_tx, set_rows, pop_fault, set_faults. simpl.
        rewrite <- !app_assoc. simpl.
        exact (batch_commit_refused tbl cols fields cands rs n fs Hbegin Hloop Hcommit).
      * unfold run_commit. simpl.
        unfold log, set_tx, set_rows, pop_fault, set_faults. simpl.
        rewrite <- !app_assoc. simpl.
        exact (batch_committed tbl cols fields cands rs n fs Hbegin Hloop Hcommit).
    + rewrite query_rollback. unfold run_rollback. simpl.
      unfold log, set_tx, set_rows, pop_fault, set_faults. simpl.
      rewrite <- !app_assoc. simpl.
      exact (batch_candidate_failed tbl cols fields cands rs n fs Hbegin Hloop).
Qed.

End PgBatch.

(* ================================================================== *)
(** * First occurrences of a key *)
(* ================================================================== *)

(** A candidate kept by [first_of_key] has a key, and that key is not among
    the keys seen before. *)
Lemma first_of_key_fresh (objs : list Obj) :
  forall (seen : list string) (o : Obj),
    In o (first_of_key seen objs) ->
    In o objs /\ exists k, get o key_col = Some k /\ ~ In k seen.
Proof.
  induction objs as [|x objs IH]; intros seen o Hin; simpl in Hin; [easy|].
  destruct (get x key_col) as [k|] eqn:Hk.
  - destruct (existsb (String.eqb k) seen) eqn:Hseen.
    + apply IH in Hin. destruct Hin as [Hin Hfresh]. split; [now right | exact Hfresh].
    + destruct Hin as [<- | Hin].
      * split; [now left|]. exists k. split; [exact Hk|].
        intros H. apply existsb_eqb_In in H. congruence.
      * apply IH in Hin. destruct Hin as [Hin (k' & Hk' & Hfresh)].
        split; [now right|]. exists k'. split; [exact Hk'|].
        intros H. apply Hfresh, in_or_app. now left.
  - apply IH in Hin. destruct Hin as [Hin Hfresh]. split; [now right | exact Hfresh].
Qed.

(** No two candidates kept by [first_of_key] carry the same key. *)
Lemma first_of_key_distinct (objs : list Obj) :
  forall seen : list string,
    NoDup (map (fun o => get o key_col) (first_of_key seen objs)).
Proof.
  induction objs as [|x objs IH]; intros seen; simpl; [constructor|].
  destruct (get x key_col) as [k|] eqn:Hk; [|apply IH].
  destruct (existsb (String.eqb k) seen); [apply IH|].
  simpl. constructor; [|apply IH].
  rewrite Hk. intros Hin. apply in_map_iff in Hin.
  destruct Hin as (o & Ho & Hin).
  apply first_of_key_fresh in Hin. destruct Hin as [_ (k' & Hk' & Hfresh)].
  apply Hfresh, in_or_app. right. left. congruence.
Qed.

(** The key of every candidate is seen before or carried by a kept one. *)
Lemma first_of_key_complete (objs : list Obj) :
  forall (seen : list string) (o : Obj) (k : string),
    In o objs ->
    get o key_col = Some k ->
    In k seen \/
    exists o', In o' (first_of_key seen objs) /\ get o' key_col = Some k.
Proof.
  induction objs as [|x objs IH]; intros seen o k Hin Hk; simpl in *; [easy|].
  destruct Hin as [-> | Hin].
  - rewrite Hk. destruct (existsb (String.eqb k) seen) eqn:Hseen.
    + left. now apply existsb_eqb_In.
    + right. exists o. split; [now left | exact Hk].
  - destruct (get x key_col) as [kx|] eqn:Hx.
    + destruct (existsb (String.eqb kx) seen) eqn:Hseen.
      * now apply IH with (o := o).
      * destruct (IH (seen ++ [kx]) o k Hin Hk) as [H | (o' & Ho' & Hk')].
        -- apply in_app_or in H. destruct H as [H | [-> | []]]; [now left|].
           right. exists x. split; [now left | exact Hx].
        -- right. exists o'. split; [now right | exact Hk'].
    + now apply IH with (o := o).
Qed.

(* ================================================================== *)
(** * The statements of the three servers *)
(* ================================================================== *)

Lemma all_listed (names cols : list string) :
  forallb (fun c => existsb (String.eqb c) cols) names = true ->
  forall c, In c names -> In c cols.
Proof.
  rewrite forallb_forall. intros H c Hc. now apply existsb_eqb_In, H.
Qed.

Lemma statement_ok_by_check (tbl : list Column) (cols : list string) :
  unknown_col tbl cols = None ->
  forallb (fun c => existsb (String.eqb c) cols) (map col_name tbl) = true ->
  unique_cols tbl = [key_col] ->
  existsb (String.eqb key_col) (notnull_cols tbl) = true ->
  statement_ok tbl cols cols.
Proof.
  intros Hknown Hall Huniq Hkey. repeat split; auto.
  - now apply all_listed.
  - now apply existsb_eqb_In.
Qed.

Lemma pg_minimal_create_ok :
  statement_ok PgMinimal.tbl PgMinimal.create_cols PgMinimal.create_fields.
Proof. apply statement_ok_by_check; reflexivity. Qed.

Lemma pg_minimal_update_ok :
  statement_ok PgMinimal.tbl PgMinimal.update_cols PgMinimal.update_fields.
Proof. apply statement_ok_by_check; reflexivity. Qed.

Lemma pg_minimal_batch_ok :
  statement_ok PgMinimal.tbl PgMinimal.batch_cols PgMinimal.batch_fields.
Proof. apply statement_ok_by_check; reflexivity. Qed.

Lemma pg_extended_create_ok :
  statement_ok PgExtended.tbl PgExtended.create_cols PgExtended.create_fields.
Proof. apply statement_ok_by_check; reflexivity. Qed.

Lemma pg_extended_update_ok :
  statement_ok PgExtended.tbl PgExtended.update_cols PgExtended.update_fields.
Proof. apply statement_ok_by_check; reflexivity. Qed.

Lemma pg_extended_batch_ok :
  statement_ok PgExtended.tbl PgExtended.batch_cols PgExtended.batch_fields.
Proof. apply statement_ok_by_check; reflexivity. Qed.

Lemma sqlite_minimal_ok :
  statement_ok SqliteMinimal.tbl SqliteMinimal.cols SqliteMinimal.fields.
Proof. apply statement_ok_by_check; reflexivity. Qed.

Lemma filter_all (A : Type) (f : A -> bool) (l : list A) :
  forallb f l = true -> filter f l = l.
Proof.
  induction l as [|x l IH]; simpl; [reflexivity|].
  intros H. apply andb_prop in H. destruct H as [Hx Hl].
  now rewrite Hx, IH.
Qed.

(** The SQLite import: a 201 means that the loop ran to its end and that
    its rows stayed. *)
Lemma sqlite_batch_committed (cands : list (option Obj)) (rs : list Row)
    (n : nat) (fs : list (option JsError)) (resp : Response) (w' : World) :
  SqliteMinimal.post_pessoas_batch_import cands (start rs n fs)
  = (Normal resp, w') ->
  status resp = 201 ->
  exists cnt w2,
    for_of cands (turn Sqlite SqliteMinimal.tbl SqliteMinimal.cols
                    SqliteMinimal.fields) 0 (sqlite_in_transaction rs n fs)
    = (Normal cnt, w2) /\
    resp = message_only 201 (imported_message cnt) /\
    rows w' = rows w2.
Proof.
  unfold SqliteMinimal.post_pessoas_batch_import, try_catch, bind.
  change (import_one SqliteMinimal.db_call SqliteMinimal.cols
            SqliteMinimal.fields)
    with (turn Sqlite SqliteMinimal.tbl SqliteMinimal.cols SqliteMinimal.fields).
  unfold SqliteMinimal.db_call. rewrite query_begin. simpl.
  destruct (hd None fs) as [cause|].
  - rewrite query_rollback. unfold run_rollback. simpl. discriminate.
  - unfold run_begin. simpl.
    change (set_tx _ _) with (sqlite_in_transaction rs n fs).
    destruct (for_of cands _ 0 (sqlite_in_transaction rs n fs))
      as [[cnt|cause] w2].
    + rewrite query_commit.
      destruct (hd None (faults w2)) as [cause|].
      * rewrite query_rollback.
        destruct (run_rollback Sqlite _) as [[r|e] w3]; simpl;
          intros H Hst; inversion H; subst; discriminate.
      * destruct (run_commit Sqlite _) as [[r|e] w3] eqn:Hc; simpl.
        -- intros H Hst. inversion H; subst. exists cnt, w2.
           repeat split; auto.
           unfold run_commit in Hc. simpl in Hc.
           destruct (tx w2); inversion Hc; reflexivity.
        -- rewrite query_rollback.
           destruct (run_rollback Sqlite _) as [[r|e'] w4]; simpl;
             intros H Hst; inversion H; subst; discriminate.
    + rewrite query_rollback.
      destruct (run_rollback Sqlite _) as [[r|e] w3]; simpl;
        intros H Hst; inversion H; subst; discriminate.
Qed.

(** [INSERT OR IGNORE] at work: the SQLite import passes over a candidate
    without cnsCpf and commits the others. *)
Example sqlite_import_passes_over_missing_key :
  let c1 := candidate "1" "Ana" "ana@x" [] in
  let c2 := [("nome", Some "Davi"); ("email", Some "davi@x")] in
  let c3 := candidate "3" "Caio" "caio@x" [] in
  exists w',
    SqliteMinimal.post_pessoas_batch_import [Some c1; Some c2; Some c3]
      (start [] 0 [])
    = (Normal (message_only 201 "2 registros importados com sucesso."), w') /\
    rows w' = [mkRow 1 (named_cells SqliteMinimal.tbl c1);
               mkRow 2 (named_cells SqliteMinimal.tbl c3)].
Proof.
  intros c1 c2 c3.
  exists (snd (SqliteMinimal.post_pessoas_batch_import
                 [Some c1; Some c2; Some c3] (start [] 0 []))).
  vm_compute. split; reflexivity.
Qed.

(* ================================================================== *)
(** * The batch import *)
(* ================================================================== *)

Section PgBatchCount.

Variable tbl : list Column.
Variables cols fields : list string.
Hypothesis Hok : statement_ok tbl cols fields.

Lemma pg_batch_counts (cands : list (option Obj)) (rs : list Row) (n : nat)
    (fs : list (option JsError)) (resp : Response) (w' : World) :
  post_pessoas_batch_import tbl cols fields cands (start rs n fs)
  = (Normal resp, w') ->
  status resp = 201 ->
  exists objs new,
    cands = map Some objs /\
    rows w' = rs ++ new /\
    map row_cells new
    = map (named_cells tbl) (first_of_key (stored_keys rs) objs) /\
    resp = message_only 201 (imported_message (List.length new)).
Proof.
  intros Hrun Hst.
  pose proof (batch_import_outcome tbl cols fields cands rs n fs) as Hout.
  rewrite Hrun in Hout.
  inversion Hout as [cnt w2 Hb Hloop Hc | cause Hb | cause w2 Hb Hloop
                     | cnt cause w2 Hb Hloop Hc]; subst;
    try discriminate.
  apply import_loop_done in Hloop; [|exact Hok].
  destruct Hloop as (objs & new & Hc1 & Hrows & Hcells & Hcnt & Hall).
  simpl in Hrows, Hcells, Hcnt.
  rewrite (filter_all _ _ (Hall eq_refl)) in Hcells.
  exists objs, new. simpl. subst cnt. auto.
Qed.

End PgBatchCount.




Section PgBatchFacts.

Variable tbl : list Column.
Variables cols fields : list string.



End PgBatchFacts.




(** C10. An empty batch, on a store that refuses nothing: the transaction
    is opened and committed, the answer is 201 with the message that 0
    records were imported, and the table and the sequence are untouched.
    The same holds for the two other versions of the server. *)
Theorem empty_batch_import_succeeds :
  forall rs n,
    PgMinimal.post_pessoas_batch_import [] (start rs n [])
    = (Normal (message_only 201 "0 registros importados com sucesso."),
       mkWorld rs n None [] [Connect; Query BEGIN; Query COMMIT; Release])
    /\
    PgExtended.post_pessoas_batch_import [] (start rs n [])
    = (Normal (message_only 201 "0 registros importados com sucesso."),
       mkWorld rs n None [] [Connect; Query BEGIN; Query COMMIT; Release])
    /\
    SqliteMinimal.post_pessoas_batch_import [] (start rs n [])
    = (Normal (message_only 201 "0 registros importados com sucesso."),
       mkWorld rs n None [] [Query BEGIN; Query COMMIT]).
Proof. intros rs n. repeat split. Qed.


Section PgBatchBody.

Variable tbl : list Column.
Variables cols fields : list string.
Hypothesis Hok : statement_ok tbl cols fields.


End PgBatchBody.



(** C4. The batch [A(1), B(2), C(1)] on an empty table, whatever the three
    payloads: the import answers 201 and reports 2 records; the table holds
    A's row and B's row, in that order, and the one row with cnsCpf 1 is
    A's. *)
Theorem batch_import_first_occurrence_wins :
  forall nomeA emailA restA nomeB emailB restB nomeC emailC restC,
    let A := candidate "1" nomeA emailA restA in
    let B := candidate "2" nomeB emailB restB in
    let C := candidate "1" nomeC emailC restC in
    exists w',
      PgMinimal.post_pessoas_batch_import [Some A; Some B; Some C]
        (start [] 0 [])
      = (Normal (message_only 201 "2 registros importados com sucesso."), w') /\
      rows w' = [mkRow 1 (named_cells PgMinimal.tbl A);
                 mkRow 2 (named_cells PgMinimal.tbl B)] /\
      filter (fun r => match row_key r with
                       | Some k => String.eqb k "1"
                       | None => false
                       end) (rows w')
      = [mkRow 1 (named_cells PgMinimal.tbl A)].
Proof.
  intros.
  exists (snd (PgMinimal.post_pessoas_batch_import [Some A; Some B; Some C]
                 (start [] 0 []))).
  vm_compute. repeat split.
Qed.

(* ================================================================== *)
(** * Creating one record *)
(* ================================================================== *)

Section InsertRows.

Variable tbl : list Column.
Variables cols fields : list string.
Hypothesis Hok : statement_ok tbl cols fields.

Lemma run_insert_rows (d : Dialect) (o : Obj) (ignore returning : bool)
    (w : World) :
  rows (snd (run_insert d tbl cols (map (get o) fields) ignore returning w))
  = rows_after_insert tbl o (rows w) (seq w).
Proof.
  pose proof (run_insert_step Hok d o ignore returning w) as Hstep.
  destruct (run_insert _ _ _ _ _ _ _) as [c w']. simpl in *.
  unfold rows_after_insert, key_taken.
  inversion Hstep as [k Hst Hk Hnew | k Hst Hk Hdup _ | k Hst Hk Hdup _
                      | Hst _ _ | c0 Hst _ _ _]; subst;
    rewrite Hst; try rewrite Hk; try rewrite Hnew; try rewrite Hdup;
    simpl; destruct d; reflexivity.
Qed.

Lemma post_pessoas_run (o : Obj) (w : World) :
  post_pessoas tbl cols fields o w
  = let s := INSERT cols (map (get o) fields) false true in
    match hd None (faults w) with
    | Some e => (Normal (create_failed e), pop_fault (log (Query s) w))
    | None =>
        match run_insert Postgres tbl cols (map (get o) fields) false true
                (pop_fault (log (Query s) w)) with
        | (Normal result, w') =>
            (Normal (mkResponse 201 (JsonRow (hd_error (result_rows result)))),
             w')
        | (Throw e, w') => (Normal (create_failed e), w')
        end
    end.
Proof.
  unfold post_pessoas, try_catch, bind, pool_query.
  rewrite query_insert.
  destruct (hd None (faults w)); [reflexivity|].
  destruct (run_insert _ _ _ _ _ _ _) as [[result|e] w']; reflexivity.
Qed.

(** Whatever happens, a create leaves the table as it was or with the one
    new row. *)
Lemma post_pessoas_rows (o : Obj) (w : World) :
  rows (snd (post_pessoas tbl cols fields o w))
  = match hd None (faults w) with
    | Some _ => rows w
    | None => rows_after_insert tbl o (rows w) (seq w)
    end.
Proof.
  rewrite post_pessoas_run. cbv zeta.
  destruct (hd None (faults w)); [reflexivity|].
  pose proof (run_insert_rows Postgres o false true
                (pop_fault (log (Query (INSERT cols (map (get o) fields)
                                          false true)) w))) as Hrows.
  destruct (run_insert _ _ _ _ _ _ _) as [[result|e] w']; exact Hrows.
Qed.

Lemma post_pessoas_rows_healthy (o : Obj) (rs : list Row) (n : nat) :
  rows (snd (post_pessoas tbl cols fields o (start rs n [])))
  = rows_after_insert tbl o rs n.
Proof. now rewrite post_pessoas_rows. Qed.

(** The table after a batch of the single candidate [o]. *)
Lemma single_import_rows (o : Obj) (rs : list Row) (n : nat) :
  rows (snd (post_pessoas_batch_import tbl cols fields [Some o]
               (start rs n [])))
  = rows_after_insert tbl o rs n.
Proof.
  pose proof (batch_import_outcome tbl cols fields [Some o] rs n []) as Hout.
  destruct (post_pessoas_batch_import tbl cols fields [Some o] (start rs n []))
    as [c w'].
  assert (Hloop :
            for_of [Some o] (turn Postgres tbl cols fields) 0
              (in_transaction rs n [])
            = turn Postgres tbl cols fields (Some o) 0 (in_transaction rs n [])).
  { simpl. unfold bind.
    destruct (turn Postgres tbl cols fields (Some o) 0 _) as [[c1|e] w1];
      reflexivity. }
  pose proof (run_insert_rows Postgres o true false
                (pop_fault (log (Query (INSERT cols (map (get o) fields)
                                          true false))
                              (in_transaction rs n [])))) as Hrows.
  pose proof (run_insert_step Hok Postgres o true false
                (pop_fault (log (Query (INSERT cols (map (get o) fields)
                                          true false))
                              (in_transaction rs n [])))) as Hstep.
  pose proof (run_insert_frame Postgres tbl cols (map (get o) fields) true
                false
                (pop_fault (log (Query (INSERT cols (map (get o) fields)
                                          true false))
                              (in_transaction rs n [])))) as (_ & _ & Hf).
  rewrite import_one_some in Hloop. cbv zeta in Hloop. simpl hd in Hloop.
  destruct (run_insert _ _ _ _ _ _ _) as [c1 w1]. simpl in Hrows, Hstep, Hf.
  inversion Hout as [cnt w2 Hb Hl Hc | cause Hb | cause w2 Hb Hl
                     | cnt cause w2 Hb Hl Hc]; subst; simpl.
  - rewrite Hl in Hloop. destruct c1; inversion Hloop; subst. exact Hrows.
  - discriminate.
  - rewrite Hl in Hloop. destruct c1 as [r1|e1]; inversion Hloop; subst.
    (* the one candidate was refused: a NOT NULL column was empty *)
    unfold rows_after_insert.
    inversion Hstep as [| | k Hst Hk Hdup Hig | | c0 Hst _ _ _]; subst.
    + discriminate.
    + now rewrite Hst.
  - rewrite Hl in Hloop. destruct c1; inversion Hloop; subst.
    rewrite Hf in Hc. discriminate.
Qed.

End InsertRows.

(** C9. In the extended version the INSERT of the create route and the
    INSERT of the batch import send every property of the request to the
    column of its own name, [telefone] included, although it is the 18th
    parameter of the one and the 4th of the other.  A record sent to
    [POST /api/pessoas] and the same record sent alone to the batch import
    therefore leave the same table: unchanged, or with the same new row. *)
Theorem extended_create_and_import_store_the_same_row :
  forall o : Obj,
    bind_cells PgExtended.tbl PgExtended.create_cols
      (map (get o) PgExtended.create_fields)
    = named_cells PgExtended.tbl o /\
    bind_cells PgExtended.tbl PgExtended.batch_cols
      (map (get o) PgExtended.batch_fields)
    = named_cells PgExtended.tbl o /\
    get (named_cells PgExtended.tbl o) "telefone" = get o "telefone" /\
    forall rs n,
      rows (snd (PgExtended.post_pessoas o (start rs n [])))
      = rows_after_insert PgExtended.tbl o rs n /\
      rows (snd (PgExtended.post_pessoas_batch_import [Some o] (start rs n [])))
      = rows_after_insert PgExtended.tbl o rs n.
Proof.
  intros o. split; [|split; [|split; [|intros rs n; split]]].
  - apply (bind_cells_named pg_extended_create_ok).
  - apply (bind_cells_named pg_extended_batch_ok).
  - reflexivity.
  - exact (post_pessoas_rows_healthy pg_extended_create_ok o rs n).
  - exact (single_import_rows pg_extended_batch_ok o rs n).
Qed.

(* ================================================================== *)
(** * Uniqueness of the natural key *)
(* ================================================================== *)

Lemma stored_keys_In (k : string) (rs : list Row) :
  In k (stored_keys rs) <-> In (Some k) (keys rs).
Proof.
  unfold stored_keys, keys. induction rs as [|r rs IH]; simpl; [tauto|].
  rewrite in_app_iff, IH.
  destruct (row_key r) as [k'|]; simpl; split; intros H.
  - destruct H as [[-> | []] | H]; auto.
  - destruct H as [H | H]; [injection H as ->|]; auto.
  - destruct H as [[] | H]; auto.
  - destruct H as [H | H]; [discriminate | auto].
Qed.

Lemma key_taken_In (o : Obj) (k : string) (rs : list Row) :
  get o key_col = Some k ->
  key_taken o rs = true <-> In (Some k) (keys rs).
Proof.
  intros Hk. unfold key_taken. rewrite Hk.
  now rewrite existsb_eqb_In, stored_keys_In.
Qed.

Lemma NoDup_snoc (A : Type) (l : list A) (x : A) :
  NoDup l -> ~ In x l -> NoDup (l ++ [x]).
Proof.
  intros Hl Hx. induction Hl as [|y l Hy Hl IH]; simpl.
  - constructor; [tauto | constructor].
  - constructor.
    + rewrite in_app_iff. simpl. intros [H | [-> | []]]; [tauto|].
      apply Hx. now left.
    + apply IH. intros H. apply Hx. now right.
Qed.

Section CreateUnique.

Variable tbl : list Column.
Variables cols fields : list string.
Hypothesis Hok : statement_ok tbl cols fields.

Lemma rows_after_insert_unique (o : Obj) (rs : list Row) (n : nat) :
  unique_keys rs -> unique_keys (rows_after_insert tbl o rs n).
Proof.
  unfold rows_after_insert, unique_keys. intros Hrs.
  destruct (storable tbl o) eqn:Hst; [|exact Hrs].
  destruct (key_taken o rs) eqn:Htaken; [exact Hrs|]. simpl.
  destruct (storable_key Hok _ Hst) as [k Hk].
  unfold keys. rewrite map_app. simpl.
  rewrite (row_key_named Hok), Hk.
  apply NoDup_snoc; [exact Hrs|].
  intros Hin. apply (key_taken_In _ _ Hk) in Hin. congruence.
Qed.

Lemma post_pessoas_unique (o : Obj) (w : World) :
  unique_keys (rows w) ->
  unique_keys (rows (snd (post_pessoas tbl cols fields o w))).
Proof.
  intros Hw. rewrite (post_pessoas_rows Hok).
  destruct (hd None (faults w)); [exact Hw|].
  now apply rows_after_insert_unique.
Qed.

(** A create whose key is already in the table. *)
Lemma post_pessoas_duplicate (o : Obj) (k : string) (rs : list Row) (n : nat)
    (fs : list (option JsError)) :
  get o key_col = Some k ->
  In (Some k) (keys rs) ->
  exists resp w',
    post_pessoas tbl cols fields o (start rs n fs) = (Normal resp, w') /\
    rows w' = rs /\
    (status resp = 409 \/ status resp = 500) /\
    (hd None fs = None -> storable tbl o = true ->
     resp = message_error 409 "Erro: CNS/CPF já cadastrado."
              (unique_violation Postgres key_col)) /\
    (hd None fs = None -> storable tbl o = false -> status resp = 500).
Proof.
  intros Hk Hin.
  pose proof (post_pessoas_rows Hok o (start rs n fs)) as Hrows.
  assert (Htaken : key_taken o rs = true) by now apply (key_taken_In _ _ Hk).
  unfold rows_after_insert in Hrows. simpl in Hrows.
  rewrite Htaken, andb_false_r in Hrows.
  assert (Hrows' : rows (snd (post_pessoas tbl cols fields o (start rs n fs)))
                   = rs) by (destruct (hd None fs); exact Hrows).
  clear Hrows. rewrite post_pessoas_run in *. cbv zeta in *. simpl hd in *.
  destruct (hd None fs) as [e|].
  - eexists; eexists. split; [reflexivity|]. split; [exact Hrows'|].
    split; [|split; discriminate].
    unfold create_failed. destruct (code_is e "23505"); auto.
  - pose proof (run_insert_step Hok Postgres o false true
                  (pop_fault (log (Query (INSERT cols (map (get o) fields)
                                            false true)) (start rs n fs))))
      as Hstep.
    destruct (run_insert _ _ _ _ _ _ _) as [c1 w1]. simpl in Hstep, Hrows'.
    unfold key_taken in Htaken. rewrite Hk in Htaken.
    inversion Hstep as [k' Hst Hk' Hnew | k' Hst Hk' Hdup Hig
                        | k' Hst Hk' Hdup _ | Hst Hd _ | c Hst _ Hc Hnull];
      subst c1 w1; simpl in *; try discriminate.
    + congruence.
    + eexists; eexists. split; [reflexivity|]. split; [reflexivity|].
      split; [now left|]. split; [reflexivity | congruence].
    + eexists; eexists. split; [reflexivity|]. split; [reflexivity|].
      split; [now right|]. split; [congruence | reflexivity].
Qed.

End CreateUnique.

Lemma creates_unique (bodies : list Obj) :
  forall w, unique_keys (rows w) -> unique_keys (rows (creates bodies w)).
Proof.
  unfold creates. induction bodies as [|o bodies IH]; intros w Hw; simpl.
  - exact Hw.
  - apply IH. now apply (post_pessoas_unique pg_minimal_create_ok).
Qed.

(** C5, as the claim states it, fails: a create that repeats a stored
    cnsCpf and leaves [nome] out is answered 500, not 409, because the
    store reports the empty NOT NULL column before it looks at the key. *)
Lemma duplicate_create_without_nome_is_not_a_conflict :
  ~ (forall o k rs n,
        get o key_col = Some k ->
        In (Some k) (keys rs) ->
        exists resp w',
          PgMinimal.post_pessoas o (start rs n []) = (Normal resp, w') /\
          status resp = 409 /\
          rows w' = rs).
Proof.
  intros H.
  destruct (H [("cnsCpf", Some "1")] "1"
              [mkRow 1 (named_cells PgMinimal.tbl (candidate "1" "Ana" "ana@x" []))]
              1 eq_refl (or_introl eq_refl))
    as (resp & w' & Hrun & Hst & _).
  vm_compute in Hrun. inversion Hrun; subst. discriminate Hst.
Qed.

(** C5, amended.  After any run of create requests on a table with at most
    one record per cnsCpf, the table still has at most one record per
    cnsCpf.  A create whose cnsCpf is that of a stored record never adds a
    row and is answered 409 or 500: 409, with the unique violation as its
    cause, when the store is reachable and the request gives the NOT NULL
    columns; 500 when the store is reachable and one of them is missing. *)
Theorem create_keeps_keys_unique :
  (forall bodies w,
      unique_keys (rows w) -> unique_keys (rows (creates bodies w)))
  /\
  (forall o k rs n fs,
      get o key_col = Some k ->
      In (Some k) (keys rs) ->
      exists resp w',
        PgMinimal.post_pessoas o (start rs n fs) = (Normal resp, w') /\
        rows w' = rs /\
        (status resp = 409 \/ status resp = 500) /\
        (hd None fs = None -> storable PgMinimal.tbl o = true ->
         resp = message_error 409 "Erro: CNS/CPF já cadastrado."
                  (unique_violation Postgres key_col)) /\
        (hd None fs = None -> storable PgMinimal.tbl o = false ->
         status resp = 500)).
Proof.
  split.
  - exact creates_unique.
  - intros o k rs n fs.
    exact (post_pessoas_duplicate pg_minimal_create_ok o rs n fs).
Qed.

Lemma create_keeps_keys_unique_witness :
  let ana := candidate "1" "Ana" "ana@x" [] in
  let ana2 := candidate "1" "Ana Maria" "am@x" [] in
  let bia := candidate "2" "Bia" "bia@x" [] in
  unique_keys (rows (creates [ana; ana2; bia] (start [] 0 []))) /\
  List.length (rows (creates [ana; ana2; bia] (start [] 0 []))) = 2 /\
  exists resp w',
    PgMinimal.post_pessoas ana2
      (start (rows (creates [ana] (start [] 0 []))) 1 [])
    = (Normal resp, w') /\
    rows w' = rows (creates [ana] (start [] 0 [])) /\
    resp = message_error 409 "Erro: CNS/CPF já cadastrado."
             (unique_violation Postgres key_col).
Proof.
  intros ana ana2 bia. split; [|split; [reflexivity|]].
  - apply (proj1 create_keeps_keys_unique). constructor.
  - destruct (proj2 create_keeps_keys_unique ana2 "1"
                (rows (creates [ana] (start [] 0 []))) 1 []
                eq_refl (or_introl eq_refl))
      as (resp & w' & Hrun & Hrows & _ & Hconflict & _).
    exists resp, w'. split; [|split].
    + exact Hrun.
    + exact Hrows.
    + apply Hconflict; reflexivity.
Defined.

(* ================================================================== *)
(** * The table under every request *)
(* ================================================================== *)

Lemma table_ok_later (rs : list Row) (n m : nat) :
  table_ok rs n -> n <= m -> table_ok rs m.
Proof.
  intros (Hk & Hid & Hle) Hnm. repeat split; auto.
  eapply Forall_impl; [|exact Hle]. simpl. intros r Hr. lia.
Qed.

Lemma has_id_eq (id : nat) (r : Row) : has_id id r = true <-> row_id r = id.
Proof. unfold has_id. apply Nat.eqb_eq. Qed.

(** Deleting rows keeps apart what was apart. *)
Lemma kept_rows_distinct (T : Type) (proj : Row -> T) (keep : Row -> bool) :
  forall rs : list Row,
    NoDup (map proj rs) -> NoDup (map proj (filter keep rs)).
Proof.
  intros rs Hrs. induction rs as [|r rs IH]; [constructor|].
  simpl in Hrs. apply NoDup_cons_iff in Hrs. destruct Hrs as [Hr Hrs].
  simpl. destruct (keep r); [|now apply IH].
  simpl. apply NoDup_cons; [|now apply IH].
  rewrite in_map_iff. intros (x & Hx & Hin).
  apply filter_In in Hin. apply Hr, in_map_iff. exists x. tauto.
Qed.

Lemma table_ok_delete (id : nat) (rs : list Row) (n : nat) :
  table_ok rs n -> table_ok (filter (fun r => negb (has_id id r)) rs) n.
Proof.
  intros (Hk & Hid & Hle). repeat split.
  - now apply kept_rows_distinct.
  - now apply kept_rows_distinct.
  - apply Forall_forall. intros r Hr. apply filter_In in Hr.
    rewrite Forall_forall in Hle. apply Hle. tauto.
Qed.

(** Replacing the row of a given [id] by a row with a key that no other
    row carries keeps the keys apart. *)
Lemma replace_row_unique (id : nat) (r : Row) (k : string) (rs : list Row) :
  row_key r = Some k ->
  NoDup (map row_id rs) ->
  unique_keys rs ->
  (forall x, In x rs -> has_id id x = false -> row_key x <> Some k) ->
  unique_keys (map (fun x => if has_id id x then r else x) rs).
Proof.
  unfold unique_keys, keys. intros Hr.
  induction rs as [|x rs IH]; simpl; intros Hid Hk Hother; [constructor|].
  inversion Hid as [|? ? Hx Hid']; subst.
  inversion Hk as [|? ? Hkx Hk']; subst.
  destruct (has_id id x) eqn:Hidx.
  - (* the row that is replaced: no other row has its id *)
    assert (Hsame : map (fun y => if has_id id y then r else y) rs = rs).
    { rewrite <- (map_id rs) at 2. apply map_ext_in. intros y Hy.
      destruct (has_id id y) eqn:Hidy; [|reflexivity].
      exfalso. apply Hx. apply has_id_eq in Hidx, Hidy.
      apply in_map_iff. exists y. split; [congruence | exact Hy]. }
    rewrite Hsame. constructor; [|exact Hk'].
    rewrite Hr. intros Hin. apply in_map_iff in Hin.
    destruct Hin as (y & Hy & Hin).
    apply (Hother y); [now right | | exact Hy].
    destruct (has_id id y) eqn:Hidy; [|reflexivity].
    exfalso. apply Hx. apply has_id_eq in Hidx, Hidy.
    apply in_map_iff. exists y. split; [congruence | exact Hin].
  - constructor.
    + intros Hin. apply in_map_iff in Hin. destruct Hin as (y & Hy & Hin).
      apply in_map_iff in Hin. destruct Hin as (z & Hz & Hin).
      destruct (has_id id z); subst y.
      * apply (Hother x); [now left | exact Hidx | congruence].
      * apply Hkx. apply in_map_iff. exists z. tauto.
    + apply IH; auto.
Qed.

Lemma replace_row_ids (id : nat) (cells : Obj) (rs : list Row) :
  map row_id (map (fun x => if has_id id x then mkRow id cells else x) rs)
  = map row_id rs.
Proof.
  rewrite map_map. apply map_ext. intros x.
  destruct (has_id id x) eqn:H; [|reflexivity].
  simpl. symmetry. now apply has_id_eq.
Qed.

Section TableOk.

Variable tbl : list Column.
Variables create_cols create_fields update_cols update_fields : list string.
Variables batch_cols batch_fields : list string.
Hypothesis Hcreate : statement_ok tbl create_cols create_fields.
Hypothesis Hupdate : statement_ok tbl update_cols update_fields.
Hypothesis Hbatch : statement_ok tbl batch_cols batch_fields.

Lemma rows_after_insert_ok (o : Obj) (rs : list Row) (n : nat) :
  table_ok rs n -> table_ok (rows_after_insert tbl o rs n) (S n).
Proof.
  intros Hok. pose proof Hok as (Hk & Hid & Hle).
  pose proof (rows_after_insert_unique Hcreate o n Hk) as Hk'.
  unfold rows_after_insert in *.
  destruct (storable tbl o && negb (key_taken o rs)).
  - repeat split; [exact Hk' | |].
    + rewrite map_app. simpl. apply NoDup_snoc; [exact Hid|].
      intros Hin. apply in_map_iff in Hin. destruct Hin as (r & Hr & Hin).
      rewrite Forall_forall in Hle. apply Hle in Hin. lia.
    + apply Forall_app. split.
      * eapply Forall_impl; [|exact Hle]. simpl. intros; lia.
      * repeat constructor.
  - apply table_ok_later with (n := n); [exact Hok | lia].
Qed.

(** An INSERT of a request object, refused or not, keeps the table well
    formed and moves the sequence forward only. *)
Lemma query_insert_ok (cols fields : list string) (o : Obj)
    (ignore returning : bool) (w : World) :
  statement_ok tbl cols fields ->
  table_ok (rows w) (seq w) ->
  let w' := snd (query Postgres tbl
                   (INSERT cols (map (get o) fields) ignore returning) w) in
  table_ok (rows w') (seq w') /\ seq w <= seq w' /\ tx w' = tx w.
Proof.
  intros Hok Hw. rewrite query_insert.
  destruct (hd None (faults w)) as [e|]; [simpl; auto|].
  set (w0 := pop_fault (log (Query (INSERT cols (map (get o) fields) ignore
                                      returning)) w)).
  pose proof (run_insert_rows Hok Postgres o ignore returning w0) as Hrows.
  pose proof (run_insert_step Hok Postgres o ignore returning w0) as Hstep.
  pose proof (run_insert_frame Postgres tbl cols (map (get o) fields) ignore
                returning w0) as (Htx & _ & _).
  destruct (run_insert _ _ _ _ _ _ _) as [c w1]. simpl in *.
  assert (Hseq : seq w1 = S (seq w))
    by (inversion Hstep; subst; reflexivity).
  rewrite Hrows, Hseq. split; [|split; [lia | exact Htx]].
  pose proof (rows_after_insert_ok o Hw) as H.
  unfold rows_after_insert in *.
  destruct (storable tbl o && negb (key_taken o (rows w))); exact H.
Qed.

Lemma import_loop_ok (cands : list (option Obj)) :
  forall (cnt : nat) (w : World),
    table_ok (rows w) (seq w) ->
    let w' := snd (for_of cands (turn Postgres tbl batch_cols batch_fields)
                     cnt w) in
    table_ok (rows w') (seq w') /\ seq w <= seq w'.
Proof.
  induction cands as [|registro cands IH]; intros cnt w Hw; simpl.
  - auto.
  - unfold bind.
    assert (Hturn :
              let w1 := snd (turn Postgres tbl batch_cols batch_fields
                               registro cnt w) in
              table_ok (rows w1) (seq w1) /\ seq w <= seq w1).
    { unfold turn, import_one, bind.
      pose proof (array_of_prop_world registro batch_fields w) as Hw0.
      destruct registro as [o|].
      - rewrite array_of_prop_some.
        pose proof (query_insert_ok o true false w Hbatch Hw) as (H1 & H2 & _).
        destruct (query Postgres tbl _ w) as [[res|e] w1]; simpl in *; auto.
      - destruct (array_of (prop None) batch_fields w) as [[values|e] w1]
          eqn:Harr; simpl in Hw0; subst w1.
        + exfalso. destruct batch_fields as [|f rest] eqn:Hf.
          * now apply (fields_not_empty Hbatch).
          * discriminate Harr.
        + simpl. auto. }
    destruct (turn Postgres tbl batch_cols batch_fields registro cnt w)
      as [[cnt1|e] w1]; simpl in Hturn.
    + destruct Hturn as [H1 H2].
      destruct (IH cnt1 w1 H1) as [H3 H4]. split; [exact H3 | lia].
    + exact Hturn.
Qed.

Lemma pg_next_ok (r : Request) (w : World) :
  table_ok (rows w) (seq w) ->
  let w' := next (handle tbl create_cols create_fields update_cols
                    update_fields batch_cols batch_fields) r w in
  table_ok (rows w') (seq w') /\ seq w <= seq w'.
Proof.
  intros Hw. unfold next.
  set (w0 := start (rows w) (seq w) (faults w)).
  assert (Hw0 : table_ok (rows w0) (seq w0)) by exact Hw.
  destruct r as [|o|id o|id|cands]; simpl.
  - (* GET *)
    unfold get_pessoas, try_catch, bind, pool_query, query, exec, bind,
      take_fault, ret. simpl.
    destruct (hd None (faults w)); simpl; auto.
  - (* POST *)
    unfold post_pessoas, try_catch, bind, pool_query.
    pose proof (query_insert_ok o false true w0 Hcreate Hw0) as (H1 & H2 & _).
    destruct (query Postgres tbl _ w0) as [[res|e] w1]; simpl in *; auto.
  - (* PUT *)
    unfold put_pessoas, try_catch, bind, pool_query, query, exec, bind,
      take_fault. simpl.
    destruct (hd None (faults w)); [simpl; auto|].
    unfold run_update. rewrite (check_stmt_ok Hupdate).
    unfold update_outcome. simpl.
    destruct (find (has_id id) (rows w)) as [old|] eqn:Hold; [|simpl; auto].
    rewrite (update_cells_named Hupdate).
    destruct (find_null tbl (named_cells tbl o)) eqn:Hnull; [simpl; auto|].
    apply find_null_storable in Hnull.
    destruct (storable_key Hupdate _ Hnull) as [k Hk].
    rewrite (find_conflict_stored Hupdate _ _ Hk).
    destruct (existsb (String.eqb k) (stored_keys _)) eqn:Hdup; [simpl; auto|].
    simpl.
    assert (Hnew : table_ok
                     (map (fun x => if has_id id x
                                    then mkRow id (named_cells tbl o) else x)
                        (rows w)) (seq w)).
    { destruct Hw as (Hkeys & Hids & Hle). repeat split.
      - apply replace_row_unique with (k := k); auto.
        + rewrite (row_key_named Hupdate). exact Hk.
        + intros x Hx Hidx Hkx.
          assert (Hin : In k (stored_keys
                                (filter (fun r => negb (has_id id r)) (rows w)))).
          { apply stored_keys_In. unfold keys. apply in_map_iff.
            exists x. split; [exact Hkx|]. apply filter_In.
            split; [exact Hx | now rewrite Hidx]. }
          apply existsb_eqb_In in Hin. congruence.
      - rewrite replace_row_ids. exact Hids.
      - apply Forall_forall. intros x Hx. apply in_map_iff in Hx.
        destruct Hx as (y & Hy & Hin). rewrite Forall_forall in Hle.
        destruct (has_id id y) eqn:Hidy.
        + subst x. simpl. apply has_id_eq in Hidy. rewrite <- Hidy. auto.
        + subst x. auto. }
    simpl. auto.
  - (* DELETE *)
    unfold delete_pessoas, try_catch, bind, pool_query, query, exec, bind,
      take_fault. simpl.
    destruct (hd None (faults w)); [simpl; auto|].
    unfold run_delete. simpl.
    pose proof (table_ok_delete id Hw) as Hdel.
    destruct (List.length _ =? 0)%nat; simpl; auto.
  - (* batch import *)
    pose proof (batch_import_outcome tbl batch_cols batch_fields cands
                  (rows w) (seq w) (faults w)) as Hout.
    fold w0 in Hout.
    pose proof (import_loop_ok cands 0 (in_transaction (rows w) (seq w)
                                           (faults w)) Hw) as Hloop.
    destruct (post_pessoas_batch_import tbl batch_cols batch_fields cands w0)
      as [c w'].
    inversion Hout as [cnt w2 Hb Hl Hc | cause Hb | cause w2 Hb Hl
                       | cnt cause w2 Hb Hl Hc]; subst; simpl;
      try (rewrite Hl in Hloop; simpl in Hloop; destruct Hloop as [H1 H2]);
      auto.
    + split; [|exact H2]. now apply table_ok_later with (n := seq w).
    + split; [|exact H2]. now apply table_ok_later with (n := seq w).
Qed.

Lemma pg_serve_ok (reqs : list Request) :
  forall w,
    table_ok (rows w) (seq w) ->
    let w' := serve (handle tbl create_cols create_fields update_cols
                       update_fields batch_cols batch_fields) reqs w in
    table_ok (rows w') (seq w').
Proof.
  unfold serve. induction reqs as [|r reqs IH]; intros w Hw; simpl.
  - exact Hw.
  - apply IH. now apply pg_next_ok.
Qed.

End TableOk.

(** X21. Whatever requests the PostgreSQL server has answered since the
    table was created, and whatever the store refused meanwhile, no two
    records share a cnsCpf or an [id], and no [id] is beyond the sequence. *)
Theorem requests_keep_keys_unique :
  forall reqs fs,
    table_ok (rows (serve PgMinimal.handle reqs (start [] 0 fs)))
      (seq (serve PgMinimal.handle reqs (start [] 0 fs))) /\
    table_ok (rows (serve PgExtended.handle reqs (start [] 0 fs)))
      (seq (serve PgExtended.handle reqs (start [] 0 fs))).
Proof.
  intros reqs fs.
  assert (Hempty : table_ok [] 0) by (repeat split; constructor).
  split.
  - exact (pg_serve_ok pg_minimal_create_ok pg_minimal_update_ok
             pg_minimal_batch_ok reqs (start [] 0 fs) Hempty).
  - exact (pg_serve_ok pg_extended_create_ok pg_extended_update_ok
             pg_extended_batch_ok reqs (start [] 0 fs) Hempty).
Qed.

(* ================================================================== *)
(** * Errors and answers *)
(* ================================================================== *)

Lemma code_is_eq (e : JsError) (c : string) :
  code_is e c = true <-> err_code e = Some c.
Proof.
  unfold code_is. destruct (err_code e) as [c'|].
  - rewrite String.eqb_eq. split; congruence.
  - split; discriminate.
Qed.

(** The catch blocks of the PostgreSQL create and update: 409 exactly for
    the code of a unique violation, 500 for any other error, the message of
    the error in the body either way. *)
Lemma pg_errors_classified_by_code (e : JsError) :
  (status (create_failed e) = 409 <-> err_code e = Some "23505") /\
  (status (create_failed e) = 500 <-> err_code e <> Some "23505") /\
  (exists m, body (create_failed e) = Json [("message", m); ("error", err_message e)]) /\
  (status (update_failed e) = 409 <-> err_code e = Some "23505") /\
  (status (update_failed e) = 500 <-> err_code e <> Some "23505") /\
  (exists m, body (update_failed e) = Json [("message", m); ("error", err_message e)]).
Proof.
  unfold create_failed, update_failed.
  pose proof (code_is_eq e "23505") as Hc.
  destruct (code_is e "23505"); simpl.
  - assert (Hcode : err_code e = Some "23505") by now apply Hc.
    repeat split; intros; try congruence; try discriminate; eauto.
  - assert (Hcode : err_code e <> Some "23505")
      by (intros H; apply Hc in H; discriminate).
    repeat split; intros; try congruence; try discriminate; eauto.
Qed.

(** An error thrown by the store during a create or an update reaches the
    catch block unchanged. *)
Lemma pg_store_error_is_answered (tbl : list Column)
    (cols fields : list string) (o : Obj) (id : nat) (w w1 : World)
    (e : JsError) :
  (pool_query tbl (INSERT cols (map (get o) fields) false true) w = (Throw e, w1) ->
   post_pessoas tbl cols fields o w = (Normal (create_failed e), w1)) /\
  (pool_query tbl (UPDATE cols (map (get o) fields) id) w = (Throw e, w1) ->
   put_pessoas tbl cols fields id o w = (Normal (update_failed e), w1)).
Proof.
  split; intros H.
  - unfold post_pessoas, try_catch, bind. now rewrite H.
  - unfold put_pessoas, try_catch, bind. now rewrite H.
Qed.

(** C6.  The SQLite version answers 409 "CNS/CPF já cadastrado" to a
    create, and to an update, that leaves [nome] out, on a table where no
    cnsCpf is repeated: its catch blocks test the code SQLITE_CONSTRAINT,
    which the store reports for an empty NOT NULL column as well. *)
Theorem sqlite_missing_nome_is_answered_as_duplicate :
  let ana := candidate "1" "Ana" "ana@x" [] in
  let unnamed := [("email", Some "bia@x"); ("cnsCpf", Some "2")] in
  let stored := mkRow 1 (named_cells SqliteMinimal.tbl ana) in
  fst (SqliteMinimal.post_pessoas unnamed (start [] 0 []))
  = Normal (message_error 409 "Erro: CNS/CPF já cadastrado."
              (not_null_violation Sqlite "nome")) /\
  fst (SqliteMinimal.put_pessoas 1 unnamed (start [stored] 1 []))
  = Normal (message_error 409 "Erro: CNS/CPF já cadastrado em outro registro."
              (not_null_violation Sqlite "nome")) /\
  fst (PgMinimal.post_pessoas unnamed (start [] 0 []))
  = Normal (message_error 500 "Erro ao criar pessoa."
              (not_null_violation Postgres "nome")).
Proof. vm_compute. repeat split. Qed.

(** ** The shape of the answers *)















Section PgShape.

Variable tbl : list Column.
Variables create_cols create_fields update_cols update_fields : list string.
Variables batch_cols batch_fields : list string.



End PgShape.





(* ================================================================== *)
(** * Statements on a store that may refuse them *)
(* ================================================================== *)

Lemma query_update (d : Dialect) (tbl : list Column) (cols : list string)
    (values : list Value) (id : nat) (w : World) :
  query d tbl (UPDATE cols values id) w
  = match hd None (faults w) with
    | Some e => (Throw e, pop_fault (log (Query (UPDATE cols values id)) w))
    | None =>
        run_update d tbl cols values id
          (pop_fault (log (Query (UPDATE cols values id)) w))
    end.
Proof.
  unfold query, exec, bind, take_fault. simpl.
  destruct (hd None (faults w)); reflexivity.
Qed.

Lemma query_delete (d : Dialect) (tbl : list Column) (id : nat) (w : World) :
  query d tbl (DELETE id) w
  = match hd None (faults w) with
    | Some e => (Throw e, pop_fault (log (Query (DELETE id)) w))
    | None => run_delete id (pop_fault (log (Query (DELETE id)) w))
    end.
Proof.
  unfold query, exec, bind, take_fault. simpl.
  destruct (hd None (faults w)); reflexivity.
Qed.

Lemma query_select_all (d : Dialect) (tbl : list Column) (w : World) :
  query d tbl SELECT_ALL w
  = match hd None (faults w) with
    | Some e => (Throw e, pop_fault (log (Query SELECT_ALL) w))
    | None =>
        (Normal (mkResult (List.length (order_by_nome d (rows w)))
                   (order_by_nome d (rows w)) 0),
         pop_fault (log (Query SELECT_ALL) w))
    end.
Proof.
  unfold query, exec, bind, take_fault. simpl.
  destruct (hd None (faults w)); reflexivity.
Qed.

Lemma query_select_by_id (d : Dialect) (tbl : list Column) (id : nat)
    (w : World) :
  query d tbl (SELECT_BY_ID id) w
  = match hd None (faults w) with
    | Some e => (Throw e, pop_fault (log (Query (SELECT_BY_ID id)) w))
    | None =>
        (Normal (mkResult (List.length (filter (has_id id) (rows w)))
                   (filter (has_id id) (rows w)) 0),
         pop_fault (log (Query (SELECT_BY_ID id)) w))
    end.
Proof.
  unfold query, exec, bind, take_fault. simpl.
  destruct (hd None (faults w)); reflexivity.
Qed.

(* ================================================================== *)
(** * Listing *)
(* ================================================================== *)






Section ListingPg.

Variable tbl : list Column.

(** What [GET /api/pessoas] answers, by what the store does. *)
Lemma get_pessoas_run (w : World) :
  get_pessoas tbl w
  = match hd None (faults w) with
    | Some e =>
        (Normal (message_error 500 "Erro ao buscar pessoas." e),
         pop_fault (log (Query SELECT_ALL) w))
    | None =>
        (Normal (mkResponse 200 (JsonRows (order_by_nome Postgres (rows w)))),
         pop_fault (log (Query SELECT_ALL) w))
    end.
Proof.
  unfold get_pessoas, try_catch, bind, pool_query.
  rewrite query_select_all. destruct (hd None (faults w)); reflexivity.
Qed.

End ListingPg.



(* ================================================================== *)
(** * One record: create, update, delete *)
(* ================================================================== *)

Lemma find_has_id_none (id : nat) (rs : list Row) :
  find (has_id id) rs = None <-> (forall r, In r rs -> row_id r <> id).
Proof.
  split.
  - intros H r Hr Hid. apply (find_none _ _ H) in Hr.
    apply has_id_eq in Hid. congruence.
  - intros H. destruct (find (has_id id) rs) as [r|] eqn:Hf; [|reflexivity].
    apply find_some in Hf. destruct Hf as [Hr Hid].
    apply has_id_eq in Hid. now apply H in Hr.
Qed.

Lemma without_missing (id : nat) (rs : list Row) :
  (forall r, In r rs -> row_id r <> id) -> without id rs = rs.
Proof.
  unfold without. intros H. induction rs as [|x rs IH]; simpl; [reflexivity|].
  destruct (has_id id x) eqn:Hx.
  - apply has_id_eq in Hx. exfalso. apply (H x); [now left | exact Hx].
  - simpl. f_equal. apply IH. intros r Hr. apply H. now right.
Qed.

Lemma filter_has_id_empty (id : nat) (rs : list Row) :
  (forall r, In r rs -> row_id r <> id) -> filter (has_id id) rs = [].
Proof.
  intros H. induction rs as [|x rs IH]; simpl; [reflexivity|].
  destruct (has_id id x) eqn:Hx.
  - apply has_id_eq in Hx. exfalso. apply (H x); [now left | exact Hx].
  - apply IH. intros r Hr. apply H. now right.
Qed.

Lemma filter_has_id_present (id : nat) (rs : list Row) (r : Row) :
  In r rs -> row_id r = id -> filter (has_id id) rs <> [].
Proof.
  intros Hr Hid Hnil.
  assert (Hin : In r (filter (has_id id) rs))
    by (apply filter_In; split; [exact Hr | now apply has_id_eq]).
  rewrite Hnil in Hin. exact Hin.
Qed.

Lemma key_of_another_stored (id : nat) (k : string) (rs : list Row) :
  existsb (String.eqb k) (stored_keys (without id rs)) = true
  <-> key_of_another id k rs.
Proof.
  rewrite existsb_eqb_In, stored_keys_In. unfold keys, key_of_another, without.
  rewrite in_map_iff. split.
  - intros (r & Hk & Hr). apply filter_In in Hr. destruct Hr as [Hr Hid].
    exists r. repeat split; auto.
    intros H. apply has_id_eq in H. rewrite H in Hid. discriminate.
  - intros (r & Hr & Hid & Hk). exists r. split; [exact Hk|].
    apply filter_In. split; [exact Hr|].
    destruct (has_id id r) eqn:H; [|reflexivity].
    apply has_id_eq in H. contradiction.
Qed.

Lemma find_null_first (tbl : list Column) (o : Obj) :
  find_null tbl (named_cells tbl o)
  = find (fun c => is_null (get o c)) (notnull_cols tbl).
Proof.
  unfold find_null.
  assert (Hsub : forall c, In c (notnull_cols tbl) -> In c (map col_name tbl))
    by apply notnull_cols_declared.
  induction (notnull_cols tbl) as [|c l IH]; simpl; [reflexivity|].
  rewrite (get_named_cells _ _ _ (Hsub c (or_introl eq_refl))).
  destruct (is_null (get o c)); [reflexivity|].
  apply IH. intros x Hx. apply Hsub. now right.
Qed.

Lemma not_storable_column (tbl : list Column) (o : Obj) :
  storable tbl o = false ->
  exists c,
    find (fun c => is_null (get o c)) (notnull_cols tbl) = Some c /\
    In c (notnull_cols tbl) /\ get o c = None.
Proof.
  intros Hst.
  destruct (find (fun c => is_null (get o c)) (notnull_cols tbl)) as [c|] eqn:Hf.
  - exists c. split; [reflexivity|]. apply find_some in Hf.
    destruct Hf as [Hin Hnull]. split; [exact Hin|].
    now destruct (get o c).
  - rewrite <- find_null_first in Hf. apply find_null_storable in Hf.
    congruence.
Qed.

Section SingleRecordPg.

Variable tbl : list Column.
Variables cols fields : list string.
Hypothesis Hok : statement_ok tbl cols fields.


(** A create that leaves a NOT NULL column empty. *)
Lemma post_pessoas_incomplete (o : Obj) (rs : list Row) (n : nat)
    (fs : list (option JsError)) :
  hd None fs = None ->
  storable tbl o = false ->
  exists c w',
    post_pessoas tbl cols fields o (start rs n fs)
    = (Normal (message_error 500 "Erro ao criar pessoa."
                 (not_null_violation Postgres c)), w') /\
    In c (notnull_cols tbl) /\ get o c = None /\ rows w' = rs.
Proof.
  intros Hfs Hst. rewrite (post_pessoas_run). cbv zeta. simpl hd.
  rewrite Hfs.
  pose proof (run_insert_step Hok Postgres o false true
                (pop_fault (log (Query (INSERT cols (map (get o) fields)
                                          false true)) (start rs n fs))))
    as Hstep.
  destruct (run_insert _ _ _ _ _ _ _) as [c1 w1]. simpl in Hstep.
  inversion Hstep as [k Hs Hk Hnew | k Hs Hk Hdup Hig | k Hs Hk Hdup _
                      | Hs Hd _ | c Hs _ Hc Hnull]; subst c1 w1; simpl in *;
    try congruence.
  exists c. eexists. repeat split; auto.
Qed.

Lemma put_pessoas_run (id : nat) (o : Obj) (w : World) :
  put_pessoas tbl cols fields id o w
  = let s := UPDATE cols (map (get o) fields) id in
    match hd None (faults w) with
    | Some e => (Normal (update_failed e), pop_fault (log (Query s) w))
    | None =>
        match run_update Postgres tbl cols (map (get o) fields) id
                (pop_fault (log (Query s) w)) with
        | (Normal result, w') =>
            if (rowCount result =? 0)%nat
            then (Normal (message_only 404 "Pessoa não encontrada."), w')
            else (Normal (mkResponse 200
                            (JsonRow (hd_error (result_rows result)))), w')
        | (Throw e, w') => (Normal (update_failed e), w')
        end
    end.
Proof.
  unfold put_pessoas, try_catch, bind, pool_query.
  rewrite query_update.
  destruct (hd None (faults w)); [reflexivity|].
  destruct (run_update _ _ _ _ _ _) as [[result|e] w']; [|reflexivity].
  destruct (rowCount result =? 0)%nat; reflexivity.
Qed.

(** What the UPDATE of a request object does to a table. *)
Lemma run_update_named (d : Dialect) (id : nat) (o : Obj) (w : World) :
  run_update d tbl cols (map (get o) fields) id w
  = match find (has_id id) (rows w) with
    | None => (Normal no_rows, w)
    | Some _ =>
        match find (fun c => is_null (get o c)) (notnull_cols tbl) with
        | Some c => (Throw (not_null_violation d c), w)
        | None =>
            if key_taken o (without id (rows w))
            then (Throw (unique_violation d key_col), w)
            else
              (Normal (mkResult 1 [mkRow id (named_cells tbl o)] 0),
               set_rows (replaced id (named_cells tbl o) (rows w)) w)
        end
    end.
Proof.
  unfold run_update. rewrite (check_stmt_ok Hok). unfold update_outcome.
  destruct (find (has_id id) (rows w)) as [old|]; [|reflexivity].
  rewrite (update_cells_named Hok), find_null_first.
  destruct (find (fun c => is_null (get o c)) (notnull_cols tbl)) eqn:Hnull;
    [reflexivity|].
  rewrite <- find_null_first in Hnull. apply find_null_storable in Hnull.
  destruct (storable_key Hok _ Hnull) as [k Hk].
  rewrite (find_conflict_stored Hok _ _ Hk).
  unfold key_taken, without. rewrite Hk.
  destruct (existsb (String.eqb k) _); reflexivity.
Qed.

Lemma put_pessoas_missing (id : nat) (o : Obj) (rs : list Row) (n : nat)
    (fs : list (option JsError)) :
  hd None fs = None ->
  (forall r, In r rs -> row_id r <> id) ->
  exists w',
    put_pessoas tbl cols fields id o (start rs n fs)
    = (Normal (message_only 404 "Pessoa não encontrada."), w') /\
    rows w' = rs /\ seq w' = n.
Proof.
  intros Hfs Hmiss. rewrite put_pessoas_run. cbv zeta. simpl hd. rewrite Hfs.
  rewrite run_update_named. simpl rows.
  rewrite (proj2 (find_has_id_none id rs) Hmiss). simpl.
  eexists. repeat split.
Qed.


Lemma put_pessoas_conflict (id : nat) (o : Obj) (k : string) (old : Row)
    (rs : list Row) (n : nat) (fs : list (option JsError)) :
  hd None fs = None ->
  In old rs -> row_id old = id ->
  storable tbl o = true ->
  get o key_col = Some k ->
  key_of_another id k rs ->
  exists w',
    put_pessoas tbl cols fields id o (start rs n fs)
    = (Normal (message_error 409
                 "Erro: CNS/CPF já cadastrado em outro registro."
                 (unique_violation Postgres key_col)), w') /\
    rows w' = rs /\ seq w' = n.
Proof.
  intros Hfs Hold Hid Hst Hk Htaken.
  rewrite put_pessoas_run. cbv zeta. simpl hd. rewrite Hfs.
  rewrite run_update_named. simpl rows.
  destruct (find (has_id id) rs) as [x|] eqn:Hfind.
  2:{ exfalso. apply (proj1 (find_has_id_none id rs) Hfind old Hold Hid). }
  rewrite <- find_null_first.
  rewrite (proj2 (find_null_storable tbl o) Hst).
  unfold key_taken. rewrite Hk.
  rewrite (proj2 (key_of_another_stored id k rs) Htaken).
  eexists. repeat split.
Qed.

End SingleRecordPg.

Lemma key_not_taken (o : Obj) (k : string) (rs : list Row) :
  get o key_col = Some k ->
  ~ In (get o key_col) (keys rs) -> key_taken o rs = false.
Proof.
  intros Hk Hfresh. destruct (key_taken o rs) eqn:Ht; [|reflexivity].
  apply (key_taken_In _ _ Hk) in Ht. rewrite Hk in Hfresh. contradiction.
Qed.


Lemma storable_minimal (o : Obj) :
  storable PgMinimal.tbl o = true <->
  get o "nome" <> None /\ get o "email" <> None /\ get o "cnsCpf" <> None.
Proof.
  unfold storable. simpl.
  destruct (get o "nome"), (get o "email"), (get o "cnsCpf"); simpl;
    split; intros H; try discriminate; try reflexivity;
    try (repeat split; discriminate); destruct H as (H1 & H2 & H3); congruence.
Qed.

Lemma storable_extended (o : Obj) :
  storable PgExtended.tbl o = true <->
  get o "nome" <> None /\ get o "cnsCpf" <> None.
Proof.
  unfold storable. simpl.
  destruct (get o "nome"), (get o "cnsCpf"); simpl;
    split; intros H; try discriminate; try reflexivity;
    try (repeat split; discriminate); destruct H as (H1 & H2); congruence.
Qed.

Lemma sqlite_post_pessoas_run (o : Obj) (w : World) :
  SqliteMinimal.post_pessoas o w
  = let s := INSERT SqliteMinimal.cols (map (get o) SqliteMinimal.fields)
               false false in
    match hd None (faults w) with
    | Some e =>
        (Normal (SqliteMinimal.create_failed e), pop_fault (log (Query s) w))
    | None =>
        match run_insert Sqlite SqliteMinimal.tbl SqliteMinimal.cols
                (map (get o) SqliteMinimal.fields) false false
                (pop_fault (log (Query s) w)) with
        | (Throw e, w1) => (Normal (SqliteMinimal.create_failed e), w1)
        | (Normal result, w1) =>
            match hd None (faults w1) with
            | Some e =>
                (Normal (SqliteMinimal.create_failed e),
                 pop_fault (log (Query (SELECT_BY_ID (lastID result))) w1))
            | None =>
                (Normal (mkResponse 201
                           (JsonRow (hd_error (filter (has_id (lastID result))
                                                 (rows w1))))),
                 pop_fault (log (Query (SELECT_BY_ID (lastID result))) w1))
            end
        end
    end.
Proof.
  unfold SqliteMinimal.post_pessoas, try_catch, bind, SqliteMinimal.db_call.
  rewrite query_insert.
  destruct (hd None (faults w)); [reflexivity|].
  destruct (run_insert _ _ _ _ _ _ _) as [[result|e] w1]; [|reflexivity].
  rewrite query_select_by_id.
  destruct (hd None (faults w1)); reflexivity.
Qed.

(** The INSERT of the SQLite create, when the request can be stored. *)
Lemma sqlite_insert_stored (o : Obj) (w : World) :
  storable SqliteMinimal.tbl o = true ->
  key_taken o (rows w) = false ->
  run_insert Sqlite SqliteMinimal.tbl SqliteMinimal.cols
    (map (get o) SqliteMinimal.fields) false false w
  = (Normal (mkResult 1 [] (S (seq w))),
     set_rows (rows w ++ [mkRow (S (seq w)) (named_cells SqliteMinimal.tbl o)])
       (set_seq (S (seq w)) w)).
Proof.
  intros Hst Hfresh.
  pose proof (run_insert_step sqlite_minimal_ok Sqlite o false false w) as Hstep.
  destruct (run_insert _ _ _ _ _ _ _) as [c1 w1]. simpl in Hstep.
  unfold key_taken in Hfresh.
  inversion Hstep as [k Hs Hk Hnew | k Hs Hk Hdup Hig | k Hs Hk Hdup _
                      | Hs Hd _ | c Hs _ Hc Hnull]; subst c1 w1;
    try congruence.
  rewrite Hk in Hfresh. congruence.
Qed.



(** X3. The mandatory properties of a create.  The first version needs
    [nome], [email] and [cnsCpf], the third [nome] and [cnsCpf] only.  When
    the store answers and one of them is missing, [POST /api/pessoas]
    answers 500 "Erro ao criar pessoa." with the not-null violation of a
    missing column as its cause, and stores nothing. *)
Theorem create_needs_its_mandatory_fields :
  forall o rs n fs,
    hd None fs = None ->
    (get o "nome" = None \/ get o "email" = None \/ get o "cnsCpf" = None ->
     exists c w',
       PgMinimal.post_pessoas o (start rs n fs)
       = (Normal (message_error 500 "Erro ao criar pessoa."
                    (not_null_violation Postgres c)), w') /\
       In c ["nome"; "email"; "cnsCpf"] /\ get o c = None /\ rows w' = rs) /\
    (get o "nome" = None \/ get o "cnsCpf" = None ->
     exists c w',
       PgExtended.post_pessoas o (start rs n fs)
       = (Normal (message_error 500 "Erro ao criar pessoa."
                    (not_null_violation Postgres c)), w') /\
       In c ["nome"; "cnsCpf"] /\ get o c = None /\ rows w' = rs).
Proof.
  intros o rs n fs Hfs. split; intros Hmiss.
  - apply (post_pessoas_incomplete pg_minimal_create_ok o rs n fs Hfs).
    destruct (storable PgMinimal.tbl o) eqn:Hst; [|reflexivity].
    apply storable_minimal in Hst. tauto.
  - apply (post_pessoas_incomplete pg_extended_create_ok o rs n fs Hfs).
    destruct (storable PgExtended.tbl o) eqn:Hst; [|reflexivity].
    apply storable_extended in Hst. tauto.
Qed.

Lemma create_needs_its_mandatory_fields_witness :
  let o := [("nome", Some "Ana"); ("cnsCpf", Some "1")] in
  (exists c w',
      PgMinimal.post_pessoas o (start [] 0 [])
      = (Normal (message_error 500 "Erro ao criar pessoa."
                   (not_null_violation Postgres c)), w') /\
      In c ["nome"; "email"; "cnsCpf"] /\ get o c = None /\ rows w' = []) /\
  storable PgExtended.tbl o = true.
Proof.
  intros o. split; [|reflexivity].
  apply (proj1 (@create_needs_its_mandatory_fields o [] 0 [] eq_refl)).
  right. left. reflexivity.
Defined.

Lemma sqlite_put_pessoas_missing (id : nat) (o : Obj) (rs : list Row)
    (n : nat) (fs : list (option JsError)) :
  hd None fs = None ->
  (forall r, In r rs -> row_id r <> id) ->
  exists w',
    SqliteMinimal.put_pessoas id o (start rs n fs)
    = (Normal (message_only 404 "Pessoa não encontrada."), w') /\
    rows w' = rs /\ seq w' = n.
Proof.
  intros Hfs Hmiss.
  unfold SqliteMinimal.put_pessoas, try_catch, bind, SqliteMinimal.db_call.
  rewrite query_update. simpl hd. rewrite Hfs.
  rewrite (run_update_named sqlite_minimal_ok). simpl rows.
  rewrite (proj2 (find_has_id_none id rs) Hmiss). simpl.
  eexists. repeat split.
Qed.

(** X4. An update that finds no record.  When the store answers and no
    record has the identifier of the route, [PUT /api/pessoas/:id] answers
    404 "Pessoa não encontrada." whatever the body, and the table is as
    before: no record is created.  So do the three versions. *)
Theorem update_of_a_missing_record :
  forall id o rs n fs,
    hd None fs = None ->
    (forall r, In r rs -> row_id r <> id) ->
    (exists w',
        PgMinimal.put_pessoas id o (start rs n fs)
        = (Normal (message_only 404 "Pessoa não encontrada."), w') /\
        rows w' = rs) /\
    (exists w',
        SqliteMinimal.put_pessoas id o (start rs n fs)
        = (Normal (message_only 404 "Pessoa não encontrada."), w') /\
        rows w' = rs) /\
    (exists w',
        PgExtended.put_pessoas id o (start rs n fs)
        = (Normal (message_only 404 "Pessoa não encontrada."), w') /\
        rows w' = rs).
Proof.
  intros id o rs n fs Hfs Hmiss. split; [|split].
  - destruct (@put_pessoas_missing _ _ _ pg_minimal_update_ok id o rs n fs Hfs Hmiss)
      as (w' & Hrun & Hrows & _). now exists w'.
  - destruct (@sqlite_put_pessoas_missing id o rs n fs Hfs Hmiss)
      as (w' & Hrun & Hrows & _). now exists w'.
  - destruct (@put_pessoas_missing _ _ _ pg_extended_update_ok id o rs n fs Hfs Hmiss)
      as (w' & Hrun & Hrows & _). now exists w'.
Qed.

Lemma update_of_a_missing_record_witness :
  exists w',
    PgMinimal.put_pessoas 999 (candidate "1" "Ana" "ana@x" []) (start [] 0 [])
    = (Normal (message_only 404 "Pessoa não encontrada."), w') /\
    rows w' = [].
Proof.
  apply (@update_of_a_missing_record 999 (candidate "1" "Ana" "ana@x" [])
           [] 0 [] eq_refl).
  intros r [].
Defined.




(** X6. An update onto the cnsCpf of another record.  When the store
    answers, the record exists and the body is complete but another record
    carries its cnsCpf, [PUT /api/pessoas/:id] answers 409 "Erro: CNS/CPF já
    cadastrado em outro registro." with the unique violation as its cause,
    and the table is as before.  So do both PostgreSQL versions. *)
Theorem update_onto_another_key_conflicts :
  forall id o k old rs n fs,
    hd None fs = None ->
    In old rs -> row_id old = id ->
    get o key_col = Some k ->
    key_of_another id k rs ->
    (storable PgMinimal.tbl o = true ->
     exists w',
       PgMinimal.put_pessoas id o (start rs n fs)
       = (Normal (message_error 409
                    "Erro: CNS/CPF já cadastrado em outro registro."
                    (unique_violation Postgres key_col)), w') /\
       rows w' = rs) /\
    (storable PgExtended.tbl o = true ->
     exists w',
       PgExtended.put_pessoas id o (start rs n fs)
       = (Normal (message_error 409
                    "Erro: CNS/CPF já cadastrado em outro registro."
                    (unique_violation Postgres key_col)), w') /\
       rows w' = rs).
Proof.
  intros id o k old rs n fs Hfs Hold Hid Hk Htaken. split; intros Hst.
  - destruct (@put_pessoas_conflict _ _ _ pg_minimal_update_ok id o k old rs n fs Hfs
                Hold Hid Hst Hk Htaken) as (w' & Hrun & Hrows & _). now exists w'.
  - destruct (@put_pessoas_conflict _ _ _ pg_extended_update_ok id o k old rs n fs Hfs
                Hold Hid Hst Hk Htaken) as (w' & Hrun & Hrows & _). now exists w'.
Qed.

Lemma update_onto_another_key_conflicts_witness :
  let ana := mkRow 1 (named_cells PgMinimal.tbl (candidate "1" "Ana" "ana@x" [])) in
  let bia := mkRow 2 (named_cells PgMinimal.tbl (candidate "2" "Bia" "bia@x" [])) in
  let body := candidate "2" "Ana" "ana@x" [] in
  exists w',
    PgMinimal.put_pessoas 1 body (start [ana; bia] 2 [])
    = (Normal (message_error 409
                 "Erro: CNS/CPF já cadastrado em outro registro."
                 (unique_violation Postgres key_col)), w') /\
    rows w' = [ana; bia].
Proof.
  intros ana bia body.
  assert (Htaken : key_of_another 1 "2" [ana; bia]).
  { exists bia. split; [right; left; reflexivity|].
    split; [discriminate | reflexivity]. }
  exact (proj1 (@update_onto_another_key_conflicts 1 body "2" ana [ana; bia] 2
                  [] eq_refl (or_introl eq_refl) eq_refl eq_refl Htaken)
           eq_refl).
Defined.

(** ** Delete *)

Lemma delete_pessoas_run (tbl : list Column) (id : nat) (w : World) :
  delete_pessoas tbl id w
  = match hd None (faults w) with
    | Some e =>
        (Normal (message_error 500 "Erro ao deletar pessoa." e),
         pop_fault (log (Query (DELETE id)) w))
    | None =>
        (Normal (if (List.length (filter (has_id id) (rows w)) =? 0)%nat
                 then message_only 404 "Pessoa não encontrada."
                 else mkResponse 204 NoBody),
         set_rows (without id (rows w)) (pop_fault (log (Query (DELETE id)) w)))
    end.
Proof.
  unfold delete_pessoas, try_catch, bind, pool_query.
  rewrite query_delete. destruct (hd None (faults w)); [reflexivity|].
  unfold run_delete. cbn [rowCount rows pop_fault log set_faults].
  destruct (List.length _ =? 0)%nat; reflexivity.
Qed.

Lemma sqlite_delete_pessoas_run (id : nat) (w : World) :
  SqliteMinimal.delete_pessoas id w
  = match hd None (faults w) with
    | Some e =>
        (Normal (message_error 500 "Erro ao deletar pessoa." e),
         pop_fault (log (Query (DELETE id)) w))
    | None =>
        (Normal (if (List.length (filter (has_id id) (rows w)) =? 0)%nat
                 then message_only 404 "Pessoa não encontrada."
                 else mkResponse 204 NoBody),
         set_rows (without id (rows w)) (pop_fault (log (Query (DELETE id)) w)))
    end.
Proof.
  unfold SqliteMinimal.delete_pessoas, try_catch, bind, SqliteMinimal.db_call.
  rewrite query_delete. destruct (hd None (faults w)); [reflexivity|].
  unfold run_delete. cbn [rowCount rows pop_fault log set_faults].
  destruct (List.length _ =? 0)%nat; reflexivity.
Qed.

Lemma deleted_answer (id : nat) (rs : list Row) :
  ((exists r, In r rs /\ row_id r = id) ->
   (if (List.length (filter (has_id id) rs) =? 0)%nat
    then message_only 404 "Pessoa não encontrada."
    else mkResponse 204 NoBody) = mkResponse 204 NoBody) /\
  ((forall r, In r rs -> row_id r <> id) ->
   (if (List.length (filter (has_id id) rs) =? 0)%nat
    then message_only 404 "Pessoa não encontrada."
    else mkResponse 204 NoBody) = message_only 404 "Pessoa não encontrada." /\
   without id rs = rs).
Proof.
  split.
  - intros (r & Hr & Hid).
    pose proof (@filter_has_id_present id rs r Hr Hid) as Hne.
    destruct (filter (has_id id) rs); [congruence | reflexivity].
  - intros Hmiss. rewrite (@filter_has_id_empty id rs Hmiss).
    split; [reflexivity | now apply without_missing].
Qed.

(** X7. Delete.  When the store answers, [DELETE /api/pessoas/:id] leaves
    the table without the records of that identifier and with every other
    record, in the old order.  It answers 204 with no body if there was
    such a record, and 404 "Pessoa não encontrada." if there was none, in
    which case the table is as before.  So do the three versions. *)
Theorem delete_removes_that_record_only :
  forall id rs n fs,
    hd None fs = None ->
    (exists body w',
        PgMinimal.delete_pessoas id (start rs n fs) = (Normal body, w') /\
        rows w' = without id rs /\
        ((exists r, In r rs /\ row_id r = id) -> body = mkResponse 204 NoBody) /\
        ((forall r, In r rs -> row_id r <> id) ->
         body = message_only 404 "Pessoa não encontrada." /\ rows w' = rs)) /\
    (exists body w',
        SqliteMinimal.delete_pessoas id (start rs n fs) = (Normal body, w') /\
        rows w' = without id rs /\
        ((exists r, In r rs /\ row_id r = id) -> body = mkResponse 204 NoBody) /\
        ((forall r, In r rs -> row_id r <> id) ->
         body = message_only 404 "Pessoa não encontrada." /\ rows w' = rs)) /\
    (exists body w',
        PgExtended.delete_pessoas id (start rs n fs) = (Normal body, w') /\
        rows w' = without id rs /\
        ((exists r, In r rs /\ row_id r = id) -> body = mkResponse 204 NoBody) /\
        ((forall r, In r rs -> row_id r <> id) ->
         body = message_only 404 "Pessoa não encontrada." /\ rows w' = rs)).
Proof.
  intros id rs n fs Hfs.
  destruct (deleted_answer id rs) as [Hhit Hmiss].
  split; [|split].
  - unfold PgMinimal.delete_pessoas. rewrite delete_pessoas_run.
    simpl hd. rewrite Hfs. eexists; eexists.
    split; [reflexivity|]. split; [reflexivity|]. split; [exact Hhit|].
    intros H. destruct (Hmiss H) as [H1 H2]. split; [exact H1 | exact H2].
  - rewrite sqlite_delete_pessoas_run.
    simpl hd. rewrite Hfs. eexists; eexists.
    split; [reflexivity|]. split; [reflexivity|]. split; [exact Hhit|].
    intros H. destruct (Hmiss H) as [H1 H2]. split; [exact H1 | exact H2].
  - unfold PgExtended.delete_pessoas. rewrite delete_pessoas_run.
    simpl hd. rewrite Hfs. eexists; eexists.
    split; [reflexivity|]. split; [reflexivity|]. split; [exact Hhit|].
    intros H. destruct (Hmiss H) as [H1 H2]. split; [exact H1 | exact H2].
Qed.

Lemma delete_removes_that_record_only_witness :
  let ana := mkRow 1 (named_cells PgMinimal.tbl (candidate "1" "Ana" "ana@x" [])) in
  let bia := mkRow 2 (named_cells PgMinimal.tbl (candidate "2" "Bia" "bia@x" [])) in
  exists w',
    PgMinimal.delete_pessoas 1 (start [ana; bia] 2 [])
    = (Normal (mkResponse 204 NoBody), w') /\
    rows w' = [bia].
Proof.
  intros ana bia.
  destruct (proj1 (@delete_removes_that_record_only 1 [ana; bia] 2 [] eq_refl))
    as (body & w' & Hrun & Hrows & Hhit & _).
  exists w'. rewrite Hrows. split; [|reflexivity].
  rewrite Hrun. f_equal. f_equal. apply Hhit.
  exists ana. split; [now left | reflexivity].
Defined.

(* ================================================================== *)
(** * Failures and their effects *)
(* ================================================================== *)

Lemma success_is_no_failure (b : Body) :
  ~ is_failure (mkResponse 200 b) /\ ~ is_failure (mkResponse 201 b) /\
  ~ is_failure (mkResponse 204 b).
Proof.
  unfold is_failure. simpl. repeat split; intros [H | [H | H]]; lia.
Qed.

Section FailuresPg.

Variable tbl : list Column.
Variables create_cols create_fields update_cols update_fields : list string.
Variables batch_cols batch_fields : list string.
Hypothesis Hcreate : statement_ok tbl create_cols create_fields.
Hypothesis Hupdate : statement_ok tbl update_cols update_fields.

Lemma pg_failure_changes_nothing (r : Request) (rs : list Row) (n : nat)
    (fs : list (option JsError)) (resp : Response) (w' : World) :
  handle tbl create_cols create_fields update_cols update_fields batch_cols
    batch_fields r (start rs n fs) = (Normal resp, w') ->
  is_failure resp ->
  rows w' = rs.
Proof.
  destruct r as [|o|id o|id|cands]; simpl; intros Hrun Hfail.
  - (* GET *)
    rewrite get_pessoas_run in Hrun. simpl in Hrun.
    destruct (hd None fs); inversion Hrun; reflexivity.
  - (* POST *)
    rewrite (post_pessoas_run) in Hrun. cbv zeta in Hrun. simpl hd in Hrun.
    destruct (hd None fs); [inversion Hrun; reflexivity|].
    pose proof (run_insert_step Hcreate Postgres o false true
                  (pop_fault (log (Query (INSERT create_cols
                                            (map (get o) create_fields)
                                            false true)) (start rs n fs))))
      as Hstep.
    destruct (run_insert _ _ _ _ _ _ _) as [c1 w1]. simpl in Hstep.
    inversion Hstep; subst c1 w1; inversion Hrun; subst; try reflexivity.
    exfalso. now apply (success_is_no_failure (JsonRow (Some
               (mkRow (S n) (named_cells tbl o))))) in Hfail.
  - (* PUT *)
    rewrite (put_pessoas_run) in Hrun. cbv zeta in Hrun. simpl hd in Hrun.
    destruct (hd None fs); [inversion Hrun; reflexivity|].
    rewrite (run_update_named Hupdate) in Hrun. simpl rows in Hrun.
    destruct (find (has_id id) rs); [|inversion Hrun; reflexivity].
    destruct (find _ (notnull_cols tbl)); [inversion Hrun; reflexivity|].
    destruct (key_taken o (without id rs)); [inversion Hrun; reflexivity|].
    simpl in Hrun. inversion Hrun; subst.
    exfalso. now apply (success_is_no_failure (JsonRow (Some
               (mkRow id (named_cells tbl o))))) in Hfail.
  - (* DELETE *)
    rewrite delete_pessoas_run in Hrun. simpl hd in Hrun.
    destruct (hd None fs); [inversion Hrun; reflexivity|].
    simpl rows in Hrun.
    destruct (filter (has_id id) rs) as [|x l] eqn:Hf.
    + inversion Hrun; subst. simpl. apply without_missing.
      intros r Hr Hid.
      assert (Hin : In r (filter (has_id id) rs))
        by (apply filter_In; split; [exact Hr | now apply has_id_eq]).
      rewrite Hf in Hin. exact Hin.
    + simpl in Hrun. inversion Hrun; subst.
      exfalso. now apply (success_is_no_failure NoBody) in Hfail.
  - (* batch import *)
    pose proof (batch_import_outcome tbl batch_cols batch_fields cands rs n fs)
      as Hout.
    rewrite Hrun in Hout.
    inversion Hout; subst; try reflexivity.
    exfalso. now apply (success_is_no_failure
                          (Json [("message", imported_message cnt)])) in Hfail.
Qed.

End FailuresPg.

(** X8. A failure has no effect in the PostgreSQL versions.  Whatever the
    route, the request and what the store refuses, an answer with status
    404, 409 or 500 leaves the table exactly as the request found it. *)
Theorem failure_changes_nothing :
  forall r rs n fs resp w',
    (PgMinimal.handle r (start rs n fs) = (Normal resp, w') ->
     is_failure resp -> rows w' = rs) /\
    (PgExtended.handle r (start rs n fs) = (Normal resp, w') ->
     is_failure resp -> rows w' = rs).
Proof.
  intros r rs n fs resp w'. split.
  - apply (@pg_failure_changes_nothing PgMinimal.tbl PgMinimal.create_cols
             PgMinimal.create_fields PgMinimal.update_cols
             PgMinimal.update_fields PgMinimal.batch_cols
             PgMinimal.batch_fields pg_minimal_create_ok pg_minimal_update_ok).
  - apply (@pg_failure_changes_nothing PgExtended.tbl PgExtended.create_cols
             PgExtended.create_fields PgExtended.update_cols
             PgExtended.update_fields PgExtended.batch_cols
             PgExtended.batch_fields pg_extended_create_ok
             pg_extended_update_ok).
Qed.

Lemma failure_changes_nothing_witness :
  let ana := mkRow 1 (named_cells PgMinimal.tbl (candidate "1" "Ana" "ana@x" [])) in
  exists resp w',
    PgMinimal.handle (POST_pessoas (candidate "1" "Eva" "eva@x" []))
      (start [ana] 1 []) = (Normal resp, w') /\
    is_failure resp /\ rows w' = [ana].
Proof.
  intros ana.
  destruct (PgMinimal.handle (POST_pessoas (candidate "1" "Eva" "eva@x" []))
              (start [ana] 1 [])) as [[resp|e] w'] eqn:Hrun;
    [|vm_compute in Hrun; discriminate].
  assert (Hfail : is_failure resp).
  { vm_compute in Hrun. inversion Hrun. right. left. reflexivity. }
  exists resp, w'. split; [reflexivity|]. split; [exact Hfail|].
  exact (proj1 (@failure_changes_nothing _ _ _ _ _ _) Hrun Hfail).
Defined.

(** X9. In the SQLite version a create can fail after it has stored.  The
    handler sends the INSERT and then reads the record back; when the
    INSERT goes through and the store refuses the SELECT, the answer is
    the failure built from that error, and the new record is in the
    table. *)
Theorem sqlite_create_can_fail_after_storing :
  forall o rs n e fs,
    storable SqliteMinimal.tbl o = true ->
    ~ In (get o key_col) (keys rs) ->
    exists w',
      SqliteMinimal.post_pessoas o (start rs n (None :: Some e :: fs))
      = (Normal (SqliteMinimal.create_failed e), w') /\
      is_failure (SqliteMinimal.create_failed e) /\
      rows w' = rs ++ [mkRow (S n) (named_cells SqliteMinimal.tbl o)].
Proof.
  intros o rs n e fs Hst Hfresh.
  destruct (storable_key sqlite_minimal_ok _ Hst) as [k Hk].
  rewrite sqlite_post_pessoas_run. cbv zeta. simpl hd.
  rewrite sqlite_insert_stored;
    [|exact Hst | exact (key_not_taken _ _ Hk Hfresh)].
  unfold set_rows, set_seq, pop_fault, set_faults, log, start.
  cbn [faults rows seq tx trace lastID tl hd].
  eexists. split; [reflexivity|]. split; [|reflexivity].
  unfold SqliteMinimal.create_failed, is_failure.
  destruct (code_is e "SQLITE_CONSTRAINT"); simpl; auto.
Qed.

Lemma sqlite_create_can_fail_after_storing_witness :
  let ana := candidate "1" "Ana" "ana@x" [] in
  let busy := mkError (Some "SQLITE_BUSY") "SQLITE_BUSY: database is locked" in
  exists w',
    SqliteMinimal.post_pessoas ana (start [] 0 [None; Some busy])
    = (Normal (message_error 500 "Erro ao criar pessoa." busy), w') /\
    rows w' = [mkRow 1 (named_cells SqliteMinimal.tbl ana)].
Proof.
  intros ana busy.
  assert (Hfresh : ~ In (get ana key_col) (keys [])) by (intros []).
  destruct (@sqlite_create_can_fail_after_storing ana [] 0 busy [] eq_refl
              Hfresh) as (w' & Hrun & _ & Hrows).
  exists w'. split; [exact Hrun | exact Hrows].
Defined.

(* ================================================================== *)
(** * Create, list, delete, list *)
(* ================================================================== *)

Section RoundTripPg.

Variable tbl : list Column.
Variables create_cols create_fields update_cols update_fields : list string.
Variables batch_cols batch_fields : list string.
Hypothesis Hcreate : statement_ok tbl create_cols create_fields.


End RoundTripPg.



(* ================================================================== *)
(** * More on first occurrences *)
(* ================================================================== *)

(** Only the set of keys seen matters. *)
Lemma first_of_key_ext (objs : list Obj) :
  forall seen seen' : list string,
    (forall k, In k seen <-> In k seen') ->
    first_of_key seen objs = first_of_key seen' objs.
Proof.
  induction objs as [|o objs IH]; intros seen seen' Hsame; simpl; [reflexivity|].
  destruct (get o key_col) as [k|]; [|now apply IH].
  assert (Hk : existsb (String.eqb k) seen = existsb (String.eqb k) seen').
  { destruct (existsb (String.eqb k) seen) eqn:H1,
             (existsb (String.eqb k) seen') eqn:H2; try reflexivity.
    - apply existsb_eqb_In, Hsame, existsb_eqb_In in H1. congruence.
    - apply existsb_eqb_In, Hsame, existsb_eqb_In in H2. congruence. }
  rewrite Hk. destruct (existsb (String.eqb k) seen'); [now apply IH|].
  f_equal. apply IH. intros x. rewrite !in_app_iff, Hsame. tauto.
Qed.

(** Nothing is kept when every key has been seen. *)
Lemma first_of_key_nil (objs : list Obj) (seen : list string) :
  (forall k, In k (carried_keys objs) -> In k seen) ->
  first_of_key seen objs = [].
Proof.
  unfold carried_keys. induction objs as [|o objs IH]; simpl; intros H;
    [reflexivity|].
  destruct (get o key_col) as [k|].
  - assert (Hk : existsb (String.eqb k) seen = true)
      by (apply existsb_eqb_In, H; simpl; now left).
    rewrite Hk. apply IH. intros x Hx. apply H. simpl. now right.
  - apply IH. exact H.
Qed.

(** The number of first occurrences does not depend on the order. *)
Lemma first_of_key_count (objs objs' : list Obj) :
  Permutation objs objs' ->
  forall seen,
    List.length (first_of_key seen objs) = List.length (first_of_key seen objs').
Proof.
  induction 1 as [|o l l' Hp IH|x y l|l l' l'' Hp1 IH1 Hp2 IH2]; intros seen.
  - reflexivity.
  - simpl. destruct (get o key_col) as [k|]; [|apply IH].
    destruct (existsb (String.eqb k) seen); simpl; [apply IH | f_equal; apply IH].
  - simpl.
    destruct (get x key_col) as [kx|] eqn:Hx,
             (get y key_col) as [ky|] eqn:Hy; try reflexivity.
    destruct (existsb (String.eqb ky) seen) eqn:Hsy,
             (existsb (String.eqb kx) seen) eqn:Hsx.
      * reflexivity.
      * assert (H : existsb (String.eqb ky) (seen ++ [kx]) = true).
        { apply existsb_eqb_In, in_or_app. left. now apply existsb_eqb_In. }
        rewrite H. reflexivity.
      * assert (H : existsb (String.eqb kx) (seen ++ [ky]) = true).
        { apply existsb_eqb_In, in_or_app. left. now apply existsb_eqb_In. }
        rewrite H. reflexivity.
      * destruct (String.eqb_spec kx ky) as [-> | Hne].
        -- assert (H : existsb (String.eqb ky) (seen ++ [ky]) = true).
           { apply existsb_eqb_In, in_or_app. right. now left. }
           rewrite H. reflexivity.
        -- assert (H1 : existsb (String.eqb kx) (seen ++ [ky]) = false).
           { destruct (existsb (String.eqb kx) (seen ++ [ky])) eqn:E;
               [|reflexivity].
             apply existsb_eqb_In, in_app_or in E.
             destruct E as [E | [E | []]].
             - apply existsb_eqb_In in E. congruence.
             - congruence. }
           assert (H2 : existsb (String.eqb ky) (seen ++ [kx]) = false).
           { destruct (existsb (String.eqb ky) (seen ++ [kx])) eqn:E;
               [|reflexivity].
             apply existsb_eqb_In, in_app_or in E.
             destruct E as [E | [E | []]].
             - apply existsb_eqb_In in E. congruence.
             - congruence. }
           rewrite H1, H2. simpl. do 2 f_equal.
           f_equal. apply first_of_key_ext.
           intros k. rewrite !in_app_iff. simpl. tauto.
  - now rewrite IH1.
Qed.

Lemma carried_keys_In (o : Obj) (k : string) (objs : list Obj) :
  In o objs -> get o key_col = Some k -> In k (carried_keys objs).
Proof.
  intros Ho Hk. unfold carried_keys. apply in_flat_map.
  exists o. split; [exact Ho|]. rewrite Hk. now left.
Qed.

Lemma carried_keys_inv (k : string) (objs : list Obj) :
  In k (carried_keys objs) -> exists o, In o objs /\ get o key_col = Some k.
Proof.
  unfold carried_keys. intros H. apply in_flat_map in H.
  destruct H as (o & Ho & Hk). exists o. split; [exact Ho|].
  destruct (get o key_col) as [k'|]; [|destruct Hk].
  destruct Hk as [-> | []]. reflexivity.
Qed.

(* ================================================================== *)
(** * Imports that go through *)
(* ================================================================== *)

Section ImportRuns.

Variable d : Dialect.
Variable tbl : list Column.
Variables cols fields : list string.
Hypothesis Hok : statement_ok tbl cols fields.

(** On a store that refuses nothing, the loop runs to its end when every
    candidate passes. *)
Lemma import_loop_passes (cands : list (option Obj)) :
  forall (cnt : nat) (w : World),
    faults w = [] ->
    forallb (passes d tbl) cands = true ->
    exists cnt' w',
      for_of cands (turn d tbl cols fields) cnt w = (Normal cnt', w') /\
      faults w' = [].
Proof.
  induction cands as [|registro cands IH]; intros cnt w Hfs Hall.
  - exists cnt, w. split; [reflexivity | exact Hfs].
  - simpl in Hall. apply andb_prop in Hall. destruct Hall as [Hc Hall].
    destruct registro as [o|]; [|destruct d; discriminate].
    simpl. unfold bind. rewrite import_one_some. cbv zeta.
    rewrite Hfs. cbn [hd].
    pose proof (run_insert_step Hok d o true false
                  (pop_fault (log (Query (INSERT cols (map (get o) fields)
                                            true false)) w))) as Hstep.
    pose proof (run_insert_frame d tbl cols (map (get o) fields) true false
                  (pop_fault (log (Query (INSERT cols (map (get o) fields)
                                            true false)) w))) as Hframe.
    cbv zeta in Hframe. destruct Hframe as (_ & _ & Hf).
    destruct (run_insert _ _ _ _ _ _ _) as [c1 w1]. simpl in Hstep, Hf.
    assert (Hf1 : faults w1 = []) by (rewrite Hf, Hfs; reflexivity).
    inversion Hstep as [k Hst Hk Hnew | k Hst Hk Hdup _ | k Hst Hk Hdup Hig
                        | Hst Hd _ | c Hst Hor Hin Hnull]; subst c1.
    + apply IH; [congruence | exact Hall].
    + apply IH; [congruence | exact Hall].
    + discriminate.
    + apply IH; [congruence | exact Hall].
    + destruct Hor as [Hd | Hig]; [|discriminate].
      subst d. simpl in Hc. congruence.
Qed.

(** Conversely, a loop that ran to its end met passing candidates only. *)
Lemma import_loop_passed (cands : list (option Obj)) (cnt : nat) (w : World)
    (cnt' : nat) (w' : World) :
  for_of cands (turn d tbl cols fields) cnt w = (Normal cnt', w') ->
  forallb (passes d tbl) cands = true.
Proof.
  intros Hrun.
  destruct (@import_loop_done d tbl cols fields Hok cands cnt w cnt' w' Hrun)
    as (objs & new & -> & _ & _ & _ & Hpg).
  apply forallb_forall. intros c Hc. apply in_map_iff in Hc.
  destruct Hc as (o & <- & Ho).
  destruct d; simpl; [|reflexivity].
  specialize (Hpg eq_refl).
  exact (proj1 (forallb_forall _ _) Hpg o Ho).
Qed.

End ImportRuns.

Lemma map_Some_inj (A : Type) (l l' : list A) :
  map Some l = map Some l' -> l = l'.
Proof.
  revert l'. induction l as [|x l IH]; intros [|y l'] H; simpl in H;
    try discriminate; [reflexivity|].
  injection H as -> H. f_equal. now apply IH.
Qed.

Lemma map_Some_permuted (l l' : list Obj) :
  Permutation (map Some l) (map Some l') -> Permutation l l'.
Proof.
  intros H.
  apply (Permutation_map (fun c : option Obj =>
                            match c with Some o => o | None => [] end)) in H.
  rewrite !map_map, !map_id in H. exact H.
Qed.

Lemma rows_of_cells (A : Type) (new : list Row) (l : list A) (f : A -> Obj) :
  map row_cells new = map f l -> List.length new = List.length l.
Proof.
  intros H. rewrite <- (length_map row_cells new), H. apply length_map.
Qed.

Section LoadedKeys.

Variable tbl : list Column.
Variables cols fields : list string.
Hypothesis Hok : statement_ok tbl cols fields.

(** The keys of the rows that were built from request objects. *)
Lemma stored_keys_of_cells (new : list Row) :
  forall objs : list Obj,
    map row_cells new = map (named_cells tbl) objs ->
    stored_keys new = carried_keys objs.
Proof.
  induction new as [|r new IH]; intros [|o objs] H; simpl in H;
    try discriminate; [reflexivity|].
  injection H as Hr H.
  unfold stored_keys, carried_keys. simpl.
  fold (stored_keys new). fold (carried_keys objs).
  rewrite (IH objs H). f_equal.
  unfold row_key. rewrite Hr.
  now rewrite (@get_named_cells tbl o key_col (key_declared Hok)).
Qed.

(** The keys in the table after the rows of the first occurrences went in:
    those it had, and every key of the batch. *)
Lemma keys_after_import (rs new : list Row) (objs : list Obj) (k : string) :
  map row_cells new
  = map (named_cells tbl) (first_of_key (stored_keys rs) objs) ->
  In k (stored_keys (rs ++ new)) <->
  In k (stored_keys rs) \/ In k (carried_keys objs).
Proof.
  intros Hcells. unfold stored_keys at 1. rewrite flat_map_app.
  fold (stored_keys rs). fold (stored_keys new).
  rewrite (stored_keys_of_cells _ _ Hcells), in_app_iff.
  split; intros [H | H]; auto.
  - apply carried_keys_inv in H. destruct H as (o & Ho & Hk).
    apply first_of_key_fresh in Ho. right.
    now apply carried_keys_In with (o := o).
  - apply carried_keys_inv in H. destruct H as (o & Ho & Hk).
    destruct (first_of_key_complete objs (stored_keys rs) o Ho Hk)
      as [Hseen | (o' & Ho' & Hk')]; [now left|].
    right. now apply carried_keys_In with (o := o').
Qed.

(** A committed import names passing candidates only. *)
Lemma pg_batch_passed (cands : list (option Obj)) (rs : list Row) (n : nat)
    (fs : list (option JsError)) (resp : Response) (w' : World) :
  post_pessoas_batch_import tbl cols fields cands (start rs n fs)
  = (Normal resp, w') ->
  status resp = 201 ->
  forallb (importable tbl) cands = true.
Proof.
  intros Hrun Hst.
  pose proof (batch_import_outcome tbl cols fields cands rs n fs) as Hout.
  rewrite Hrun in Hout.
  inversion Hout as [cnt w2 Hb Hloop Hc | cause Hb | cause w2 Hb Hloop
                     | cnt cause w2 Hb Hloop Hc]; subst resp;
    try (simpl in Hst; discriminate).
  exact (@import_loop_passed Postgres tbl cols fields Hok cands 0 _ cnt w2 Hloop).
Qed.

(** On a store that refuses nothing the import is committed exactly when
    every candidate passes; otherwise it answers 500 and leaves the table
    as it was. *)
Lemma pg_batch_healthy (cands : list (option Obj)) (rs : list Row) (n : nat) :
  exists resp w',
    post_pessoas_batch_import tbl cols fields cands (start rs n [])
    = (Normal resp, w') /\
    (status resp = 201 <-> forallb (importable tbl) cands = true) /\
    (status resp = 201 \/ (status resp = 500 /\ rows w' = rs)).
Proof.
  pose proof (batch_import_outcome tbl cols fields cands rs n []) as Hout.
  destruct (post_pessoas_batch_import tbl cols fields cands (start rs n []))
    as [c w'] eqn:Hrun.
  assert (Hloop' : forallb (importable tbl) cands = true ->
                   exists cnt' w2',
                     for_of cands (turn Postgres tbl cols fields) 0
                       (in_transaction rs n []) = (Normal cnt', w2') /\
                     faults w2' = []).
  { intros Hall.
    exact (@import_loop_passes Postgres tbl cols fields Hok cands 0
             (in_transaction rs n []) eq_refl Hall). }
  inversion Hout as [cnt w2 Hb Hloop Hc | cause Hb | cause w2 Hb Hloop
                     | cnt cause w2 Hb Hloop Hc]; subst c w'.
  - eexists _, _. split; [reflexivity|]. split; [|now left].
    split; [intros _ | reflexivity].
    exact (@import_loop_passed Postgres tbl cols fields Hok cands 0 _ cnt w2 Hloop).
  - discriminate.
  - eexists _, _. split; [reflexivity|]. split; [|right; split; reflexivity].
    split; [intros H; simpl in H; discriminate|].
    intros Hall. destruct (Hloop' Hall) as (cnt' & w2' & Hl & _). congruence.
  - pose proof (@import_loop_passed Postgres tbl cols fields Hok cands 0 _ cnt w2 Hloop) as Hall.
    destruct (Hloop' Hall) as (cnt' & w2' & Hl & Hf).
    rewrite Hloop in Hl. injection Hl as _ <-. rewrite Hf in Hc. discriminate.
Qed.

(** Importing a committed batch once more adds nothing. *)
Lemma pg_batch_again (cands : list (option Obj)) (rs : list Row) (n : nat)
    (fs : list (option JsError)) (resp : Response) (w1 : World) :
  post_pessoas_batch_import tbl cols fields cands (start rs n fs)
  = (Normal resp, w1) ->
  status resp = 201 ->
  exists w2,
    post_pessoas_batch_import tbl cols fields cands
      (start (rows w1) (seq w1) [])
    = (Normal (message_only 201 (imported_message 0)), w2) /\
    rows w2 = rows w1.
Proof.
  intros Hrun Hst.
  pose proof (pg_batch_passed _ _ _ _ Hrun Hst) as Hall.
  destruct (pg_batch_counts Hok _ _ _ _ Hrun Hst)
    as (objs & new & Hc & Hrows & Hcells & _).
  destruct (pg_batch_healthy cands (rows w1) (seq w1))
    as (resp2 & w2 & Hrun2 & Hiff & _).
  apply Hiff in Hall.
  destruct (pg_batch_counts Hok _ _ _ _ Hrun2 Hall)
    as (objs2 & new2 & Hc2 & Hrows2 & Hcells2 & Hresp2).
  rewrite Hc in Hc2. apply map_Some_inj in Hc2. subst objs2.
  rewrite first_of_key_nil in Hcells2.
  - destruct new2; [|discriminate]. simpl in Hresp2. subst resp2.
    exists w2. split; [exact Hrun2|]. now rewrite Hrows2, app_nil_r.
  - intros k Hk. rewrite Hrows. apply (keys_after_import _ _ _ k Hcells).
    now right.
Qed.

(** A committed import in another order: the same answer, the same number
    of rows, the same keys. *)
Lemma pg_batch_any_order (cands cands' : list (option Obj)) (rs : list Row)
    (n : nat) (resp : Response) (w1 : World) :
  Permutation cands cands' ->
  post_pessoas_batch_import tbl cols fields cands (start rs n [])
  = (Normal resp, w1) ->
  status resp = 201 ->
  exists w2,
    post_pessoas_batch_import tbl cols fields cands' (start rs n [])
    = (Normal resp, w2) /\
    List.length (rows w2) = List.length (rows w1) /\
    forall k, In k (stored_keys (rows w2)) <-> In k (stored_keys (rows w1)).
Proof.
  intros Hperm Hrun Hst.
  pose proof (pg_batch_passed _ _ _ _ Hrun Hst) as Hall.
  destruct (pg_batch_counts Hok _ _ _ _ Hrun Hst)
    as (objs & new & Hc & Hrows & Hcells & Hresp).
  assert (Hall' : forallb (importable tbl) cands' = true).
  { apply forallb_forall. intros c Hin.
    apply (proj1 (forallb_forall _ _) Hall).
    apply Permutation_in with (l := cands'); [now apply Permutation_sym|].
    exact Hin. }
  destruct (pg_batch_healthy cands' rs n) as (resp2 & w2 & Hrun2 & Hiff & _).
  apply Hiff in Hall'.
  destruct (pg_batch_counts Hok _ _ _ _ Hrun2 Hall')
    as (objs' & new' & Hc' & Hrows' & Hcells' & Hresp').
  assert (Hp : Permutation objs objs').
  { apply map_Some_permuted. now rewrite <- Hc, <- Hc'. }
  assert (Hlen : List.length new' = List.length new).
  { rewrite (rows_of_cells _ _ _ Hcells'), (rows_of_cells _ _ _ Hcells).
    symmetry. now apply first_of_key_count. }
  exists w2. split; [|split].
  - rewrite Hrun2, Hresp', Hresp, Hlen. reflexivity.
  - rewrite Hrows', Hrows, !length_app, Hlen. reflexivity.
  - intros k. rewrite Hrows', Hrows.
    rewrite (keys_after_import _ _ _ k Hcells'),
            (keys_after_import _ _ _ k Hcells).
    assert (Hk : In k (carried_keys objs') <-> In k (carried_keys objs)).
    { split; intros H; apply carried_keys_inv in H;
        destruct H as (o & Ho & Hko);
        apply carried_keys_In with (o := o); auto.
      - apply Permutation_in with (l := objs'); [now apply Permutation_sym|].
        exact Ho.
      - now apply Permutation_in with (l := objs). }
    tauto.
Qed.

End LoadedKeys.

(* ================================================================== *)
(** * The SQLite import *)
(* ================================================================== *)

(** The SQLite import after a BEGIN TRANSACTION that went through: the one
    answer of each course of the loop and of the COMMIT, and what is left of
    the table and of the counter of ids. *)
Lemma sqlite_batch_run (cands : list (option Obj)) (rs : list Row) (n : nat)
    (fs : list (option JsError)) :
  hd None fs = None ->
  exists resp w',
    SqliteMinimal.post_pessoas_batch_import cands (start rs n fs)
    = (Normal resp, w') /\
    tx w' = None /\
    match for_of cands (turn Sqlite SqliteMinimal.tbl SqliteMinimal.cols
                          SqliteMinimal.fields) 0
            (sqlite_in_transaction rs n fs) with
    | (Normal cnt, w2) =>
        match hd None (faults w2) with
        | None =>
            resp = message_only 201 (imported_message cnt) /\
            rows w' = rows w2 /\ seq w' = seq w2
        | Some cause =>
            resp = message_error 500 import_error cause /\
            rows w' = rs /\ seq w' = n
        end
    | (Throw cause, w2) =>
        resp = message_error 500 import_error cause /\
        rows w' = rs /\ seq w' = n
    end.
Proof.
  intros Hb.
  unfold SqliteMinimal.post_pessoas_batch_import, try_catch, bind.
  change (import_one SqliteMinimal.db_call SqliteMinimal.cols
            SqliteMinimal.fields)
    with (turn Sqlite SqliteMinimal.tbl SqliteMinimal.cols SqliteMinimal.fields).
  unfold SqliteMinimal.db_call. rewrite query_begin. simpl. rewrite Hb.
  unfold run_begin. simpl.
  change (set_tx _ _) with (sqlite_in_transaction rs n fs).
  destruct (@import_loop_frame Sqlite SqliteMinimal.tbl SqliteMinimal.cols
              SqliteMinimal.fields cands 0 (sqlite_in_transaction rs n fs))
    as (Htx & _).
  destruct (for_of cands _ 0 (sqlite_in_transaction rs n fs))
    as [[cnt|cause] w2]; simpl in Htx.
  - rewrite query_commit.
    destruct (hd None (faults w2)) as [cause|].
    + rewrite query_rollback. unfold run_rollback. simpl. rewrite Htx.
      eexists _, _. split; [reflexivity|]. simpl. auto.
    + unfold run_commit. simpl. rewrite Htx.
      eexists _, _. split; [reflexivity|]. simpl. auto.
  - rewrite query_rollback. unfold run_rollback. simpl. rewrite Htx.
    eexists _, _. split; [reflexivity|]. simpl. auto.
Qed.

(** On a store that refuses nothing the SQLite import is committed exactly
    when every candidate is an object. *)
Lemma sqlite_batch_healthy (cands : list (option Obj)) (rs : list Row)
    (n : nat) :
  exists resp w',
    SqliteMinimal.post_pessoas_batch_import cands (start rs n [])
    = (Normal resp, w') /\
    (status resp = 201 <-> forallb is_object cands = true) /\
    (status resp = 201 \/ (status resp = 500 /\ rows w' = rs /\ seq w' = n)).
Proof.
  destruct (sqlite_batch_run cands rs n [] eq_refl)
    as (resp & w' & Hrun & _ & Hcase).
  exists resp, w'. split; [exact Hrun|].
  assert (Hloop' : forallb is_object cands = true ->
                   exists cnt' w2',
                     for_of cands (turn Sqlite SqliteMinimal.tbl
                                     SqliteMinimal.cols SqliteMinimal.fields) 0
                       (sqlite_in_transaction rs n []) = (Normal cnt', w2') /\
                     faults w2' = []).
  { intros Hall.
    exact (@import_loop_passes Sqlite SqliteMinimal.tbl SqliteMinimal.cols
             SqliteMinimal.fields sqlite_minimal_ok cands 0
             (sqlite_in_transaction rs n []) eq_refl Hall). }
  destruct (for_of cands _ 0 (sqlite_in_transaction rs n []))
    as [[cnt|cause] w2] eqn:Hloop.
  - pose proof (@import_loop_passed Sqlite SqliteMinimal.tbl SqliteMinimal.cols
                  SqliteMinimal.fields sqlite_minimal_ok cands 0 _ cnt w2
                  Hloop) as Hall.
    destruct (Hloop' Hall) as (cnt' & w2' & Hl & Hf).
    injection Hl as _ <-. rewrite Hf in Hcase. simpl in Hcase.
    destruct Hcase as (-> & _). split; [|now left].
    split; [intros _; exact Hall | reflexivity].
  - destruct Hcase as (-> & Hr & Hs).
    split; [|right; split; [reflexivity | now split]].
    split; [intros H; simpl in H; discriminate|].
    intros Hall. destruct (Hloop' Hall) as (cnt' & w2' & Hl & _).
    discriminate.
Qed.


(** Importing a committed batch once more adds nothing. *)
Lemma sqlite_batch_again (cands : list (option Obj)) (rs : list Row) (n : nat)
    (fs : list (option JsError)) (resp : Response) (w1 : World) :
  SqliteMinimal.post_pessoas_batch_import cands (start rs n fs)
  = (Normal resp, w1) ->
  status resp = 201 ->
  exists w2,
    SqliteMinimal.post_pessoas_batch_import cands
      (start (rows w1) (seq w1) [])
    = (Normal (message_only 201 (imported_message 0)), w2) /\
    rows w2 = rows w1.
Proof.
  intros Hrun Hst.
  destruct (sqlite_batch_committed _ _ _ _ Hrun Hst)
    as (cnt & w2 & Hloop & _ & Hrows).
  pose proof (@import_loop_passed Sqlite SqliteMinimal.tbl SqliteMinimal.cols
                SqliteMinimal.fields sqlite_minimal_ok cands 0 _ cnt w2
                Hloop) as Hall.
  apply import_loop_done in Hloop; [|exact sqlite_minimal_ok].
  destruct Hloop as (objs & new & Hc & Hr2 & Hcells & _ & _).
  simpl in Hr2, Hcells. rewrite Hr2 in Hrows.
  destruct (sqlite_batch_healthy cands (rows w1) (seq w1))
    as (resp' & w' & Hrun' & Hiff & _).
  apply Hiff in Hall.
  destruct (sqlite_batch_committed _ _ _ _ Hrun' Hall)
    as (cnt' & w2' & Hloop' & -> & Hrows').
  apply import_loop_done in Hloop'; [|exact sqlite_minimal_ok].
  destruct Hloop' as (objs' & new' & Hc' & Hr2' & Hcells' & -> & _).
  simpl in Hr2', Hcells'.
  rewrite Hc in Hc'. apply map_Some_inj in Hc'. subst objs'.
  rewrite first_of_key_nil in Hcells'.
  - destruct new'; [|discriminate].
    exists w'. split; [exact Hrun'|]. now rewrite Hrows', Hr2', app_nil_r.
  - intros k Hk. rewrite Hrows.
    apply (keys_after_import sqlite_minimal_ok _ _ _ k Hcells). now right.
Qed.

(* ================================================================== *)
(** * The batch import, further *)
(* ================================================================== *)

(** X11. The batches that the PostgreSQL import commits.  On a store that
    refuses nothing, [POST /api/pessoas/batch-import] answers 201 exactly
    when every candidate is an object that gives every NOT NULL column;
    otherwise it answers 500 and the table is as before.  So do both
    PostgreSQL versions, each with its own NOT NULL columns. *)
Theorem import_commits_the_complete_batches :
  forall cands rs n,
    (exists resp w',
        PgMinimal.post_pessoas_batch_import cands (start rs n [])
        = (Normal resp, w') /\
        (status resp = 201 <-> forallb (importable PgMinimal.tbl) cands = true) /\
        (status resp = 201 \/ (status resp = 500 /\ rows w' = rs))) /\
    (exists resp w',
        PgExtended.post_pessoas_batch_import cands (start rs n [])
        = (Normal resp, w') /\
        (status resp = 201 <-> forallb (importable PgExtended.tbl) cands = true) /\
        (status resp = 201 \/ (status resp = 500 /\ rows w' = rs))).
Proof.
  intros cands rs n. split.
  - exact (pg_batch_healthy pg_minimal_batch_ok cands rs n).
  - exact (pg_batch_healthy pg_extended_batch_ok cands rs n).
Qed.

(** X12. The batches that the SQLite import commits.  On a store that
    refuses nothing, the import answers 201 exactly when every candidate is
    an object, complete or not; otherwise it answers 500, and the table
    and the counter of identifiers are as before. *)
Theorem sqlite_import_commits_the_batches_of_objects :
  forall cands rs n,
    exists resp w',
      SqliteMinimal.post_pessoas_batch_import cands (start rs n [])
      = (Normal resp, w') /\
      (status resp = 201 <-> forallb is_object cands = true) /\
      (status resp = 201 \/ (status resp = 500 /\ rows w' = rs /\ seq w' = n)).
Proof. exact sqlite_batch_healthy. Qed.

(** X13. Importing a batch twice.  When an import has answered 201, the
    import of the same batch into the table it left, on a store that
    refuses nothing, answers 201 with a count of 0 and leaves that table as
    it is.  So do the three versions. *)
Theorem import_again_adds_nothing :
  (forall cands rs n fs resp w1,
      PgMinimal.post_pessoas_batch_import cands (start rs n fs)
      = (Normal resp, w1) ->
      status resp = 201 ->
      exists w2,
        PgMinimal.post_pessoas_batch_import cands (start (rows w1) (seq w1) [])
        = (Normal (message_only 201 (imported_message 0)), w2) /\
        rows w2 = rows w1)
  /\
  (forall cands rs n fs resp w1,
      SqliteMinimal.post_pessoas_batch_import cands (start rs n fs)
      = (Normal resp, w1) ->
      status resp = 201 ->
      exists w2,
        SqliteMinimal.post_pessoas_batch_import cands
          (start (rows w1) (seq w1) [])
        = (Normal (message_only 201 (imported_message 0)), w2) /\
        rows w2 = rows w1)
  /\
  (forall cands rs n fs resp w1,
      PgExtended.post_pessoas_batch_import cands (start rs n fs)
      = (Normal resp, w1) ->
      status resp = 201 ->
      exists w2,
        PgExtended.post_pessoas_batch_import cands (start (rows w1) (seq w1) [])
        = (Normal (message_only 201 (imported_message 0)), w2) /\
        rows w2 = rows w1).
Proof.
  split; [|split]; intros cands rs n fs resp w1 Hrun Hst.
  - exact (pg_batch_again pg_minimal_batch_ok _ _ _ _ Hrun Hst).
  - exact (sqlite_batch_again _ _ _ _ Hrun Hst).
  - exact (pg_batch_again pg_extended_batch_ok _ _ _ _ Hrun Hst).
Qed.

Lemma import_again_adds_nothing_witness :
  let a := candidate "1" "Ana" "ana@x" [] in
  let b := candidate "2" "Bia" "bia@x" [("cep", Some "29000")] in
  let c := candidate "1" "Carla" "carla@x" [] in
  exists resp w1 w2,
    PgMinimal.post_pessoas_batch_import [Some a; Some b; Some c]
      (start [] 0 []) = (Normal resp, w1) /\
    status resp = 201 /\
    PgMinimal.post_pessoas_batch_import [Some a; Some b; Some c]
      (start (rows w1) (seq w1) [])
    = (Normal (message_only 201 (imported_message 0)), w2) /\
    rows w2 = rows w1.
Proof.
  intros a b c.
  destruct (PgMinimal.post_pessoas_batch_import [Some a; Some b; Some c]
              (start [] 0 [])) as [[resp|e] w1] eqn:Hrun;
    [|vm_compute in Hrun; discriminate].
  assert (Hst : status resp = 201)
    by (vm_compute in Hrun; inversion Hrun; reflexivity).
  destruct (proj1 import_again_adds_nothing _ _ _ _ _ _ Hrun Hst)
    as (w2 & Hrun2 & Hrows).
  exists resp, w1, w2. auto.
Defined.

(** X14. The order of a batch.  On a store that refuses nothing, when an
    import has answered 201, the import of the same candidates in any other
    order into the same table gives the same answer, count included, as
    many rows, and the same cnsCpf values in the table.  So do both
    PostgreSQL versions. *)
Theorem import_count_ignores_the_order :
  (forall cands cands' rs n resp w1,
      Permutation cands cands' ->
      PgMinimal.post_pessoas_batch_import cands (start rs n [])
      = (Normal resp, w1) ->
      status resp = 201 ->
      exists w2,
        PgMinimal.post_pessoas_batch_import cands' (start rs n [])
        = (Normal resp, w2) /\
        List.length (rows w2) = List.length (rows w1) /\
        forall k, In k (stored_keys (rows w2)) <-> In k (stored_keys (rows w1)))
  /\
  (forall cands cands' rs n resp w1,
      Permutation cands cands' ->
      PgExtended.post_pessoas_batch_import cands (start rs n [])
      = (Normal resp, w1) ->
      status resp = 201 ->
      exists w2,
        PgExtended.post_pessoas_batch_import cands' (start rs n [])
        = (Normal resp, w2) /\
        List.length (rows w2) = List.length (rows w1) /\
        forall k, In k (stored_keys (rows w2)) <-> In k (stored_keys (rows w1))).
Proof.
  split; intros cands cands' rs n resp w1 Hperm Hrun Hst.
  - exact (pg_batch_any_order pg_minimal_batch_ok _ _ Hperm Hrun Hst).
  - exact (pg_batch_any_order pg_extended_batch_ok _ _ Hperm Hrun Hst).
Qed.

Lemma import_count_ignores_the_order_witness :
  let a := candidate "1" "Ana" "ana@x" [] in
  let b := candidate "2" "Bia" "bia@x" [] in
  let c := candidate "1" "Carla" "carla@x" [] in
  exists resp w1 w2,
    Permutation [Some a; Some b; Some c] [Some c; Some a; Some b] /\
    PgMinimal.post_pessoas_batch_import [Some a; Some b; Some c]
      (start [] 0 []) = (Normal resp, w1) /\
    status resp = 201 /\
    PgMinimal.post_pessoas_batch_import [Some c; Some a; Some b]
      (start [] 0 []) = (Normal resp, w2) /\
    List.length (rows w2) = List.length (rows w1) /\
    forall k, In k (stored_keys (rows w2)) <-> In k (stored_keys (rows w1)).
Proof.
  intros a b c.
  assert (Hperm : Permutation [Some a; Some b; Some c]
                    [Some c; Some a; Some b]).
  { apply Permutation_sym.
    exact (Permutation_cons_append [Some a; Some b] (Some c)). }
  destruct (PgMinimal.post_pessoas_batch_import [Some a; Some b; Some c]
              (start [] 0 [])) as [[resp|e] w1] eqn:Hrun;
    [|vm_compute in Hrun; discriminate].
  assert (Hst : status resp = 201)
    by (vm_compute in Hrun; inversion Hrun; reflexivity).
  destruct (proj1 import_count_ignores_the_order _ _ _ _ _ _ Hperm Hrun Hst)
    as (w2 & Hrun2 & Hlen & Hkeys).
  exists resp, w1, w2.
  exact (conj Hperm (conj eq_refl (conj Hst (conj Hrun2 (conj Hlen Hkeys))))).
Defined.






(* ================================================================== *)
(** * Start-up *)
(* ================================================================== *)

(** The courses of the start-up of a PostgreSQL version. *)
Lemma startup_courses (cols : list Column) (sch : option (list Column))
    (fs : list (option JsError)) :
  let h' := startup (setupDatabase cols) (mkHost sch fs []) in
  match hd None fs, hd None (tl fs) with
  | None, None =>
      boot_log h' = [PoolConnect; CreateTable cols; ClientRelease; AppListen] /\
      schema h' = Some (match sch with Some old => old | None => cols end)
  | None, Some e =>
      boot_log h' = [PoolConnect; CreateTable cols; ConsoleError e] /\
      schema h' = sch
  | Some e, _ =>
      boot_log h' = [PoolConnect; ConsoleError e] /\ schema h' = sch
  end.
Proof.
  unfold startup, setupDatabase, awaited. simpl.
  destruct (hd None fs) as [e|]; simpl; [split; reflexivity|].
  destruct (hd None (tl fs)) as [e|]; simpl; [split; reflexivity|].
  unfold create_table_if_not_exists. simpl.
  destruct sch; split; reflexivity.
Qed.

Lemma sqlite_startup_courses (cols : list Column)
    (sch : option (list Column)) (fs : list (option JsError)) :
  let h' := startup (sqlite_setupDatabase cols) (mkHost sch fs []) in
  match hd None fs, hd None (tl fs) with
  | None, None =>
      boot_log h' = [PoolConnect; CreateTable cols; AppListen] /\
      schema h' = Some (match sch with Some old => old | None => cols end)
  | None, Some e =>
      boot_log h' = [PoolConnect; CreateTable cols; ConsoleError e] /\
      schema h' = sch
  | Some e, _ =>
      boot_log h' = [PoolConnect; ConsoleError e] /\ schema h' = sch
  end.
Proof.
  unfold startup, sqlite_setupDatabase, awaited. simpl.
  destruct (hd None fs) as [e|]; simpl; [split; reflexivity|].
  destruct (hd None (tl fs)) as [e|]; simpl; [split; reflexivity|].
  unfold create_table_if_not_exists. simpl.
  destruct sch; split; reflexivity.
Qed.

(** A server that listens has found or created its table. *)
Lemma listening_has_table (cols : list Column) (sch : option (list Column))
    (fs : list (option JsError)) :
  In AppListen (boot_log (startup (setupDatabase cols) (mkHost sch fs []))) ->
  schema (startup (setupDatabase cols) (mkHost sch fs []))
  = Some (match sch with Some old => old | None => cols end).
Proof.
  pose proof (startup_courses cols sch fs) as H. cbv zeta in H.
  destruct (hd None fs) as [e|]; [|destruct (hd None (tl fs)) as [e|]];
    destruct H as (Hlog & Hs); rewrite Hlog; intros Hin.
  - simpl in Hin. destruct Hin as [H | [H | []]]; discriminate.
  - simpl in Hin. destruct Hin as [H | [H | [H | []]]]; discriminate.
  - exact Hs.
Qed.

(** X17. The start-up, whatever the database refuses.  The server listens
    only once the table exists and never after it logged an error; in the
    PostgreSQL versions it listens only after the client of the start-up
    went back to the pool.  A table that exists keeps its columns: the
    CREATE TABLE of the start-up changes nothing in it.  When the CREATE
    TABLE is refused, the PostgreSQL versions never release the client. *)
Theorem startup_listens_once_the_table_exists :
  (forall cols sch fs,
      let h' := startup (setupDatabase cols) (mkHost sch fs []) in
      (In AppListen (boot_log h') ->
       (exists t, schema h' = Some t) /\
       In ClientRelease (boot_log h') /\
       forall e, ~ In (ConsoleError e) (boot_log h')) /\
      (forall old, sch = Some old -> schema h' = Some old) /\
      (forall e,
          In (CreateTable cols) (boot_log h') ->
          In (ConsoleError e) (boot_log h') ->
          ~ In ClientRelease (boot_log h')))
  /\
  (forall cols sch fs,
      let h' := startup (sqlite_setupDatabase cols) (mkHost sch fs []) in
      (In AppListen (boot_log h') ->
       (exists t, schema h' = Some t) /\
       forall e, ~ In (ConsoleError e) (boot_log h')) /\
      (forall old, sch = Some old -> schema h' = Some old)).
Proof.
  split; intros cols sch fs h'.
  - pose proof (startup_courses cols sch fs) as H. cbv zeta in H.
    fold h' in H.
    destruct (hd None fs) as [e1|]; [|destruct (hd None (tl fs)) as [e2|]];
      destruct H as (Hlog & Hs); rewrite Hlog, Hs.
    + split; [|split].
      * intros [H | [H | []]]; discriminate.
      * auto.
      * intros e [H | [H | []]]; discriminate.
    + split; [|split].
      * intros [H | [H | [H | []]]]; discriminate.
      * auto.
      * intros e _ _ [H | [H | [H | []]]]; discriminate.
    + split; [|split].
      * intros _. split; [eauto|]. split; [simpl; auto|].
        intros e [H | [H | [H | [H | []]]]]; discriminate.
      * intros old ->. reflexivity.
      * intros e _ [H | [H | [H | [H | []]]]]; discriminate.
  - pose proof (sqlite_startup_courses cols sch fs) as H. cbv zeta in H.
    fold h' in H.
    destruct (hd None fs) as [e1|]; [|destruct (hd None (tl fs)) as [e2|]];
      destruct H as (Hlog & Hs); rewrite Hlog, Hs.
    + split; [|auto]. intros [H | [H | []]]; discriminate.
    + split; [|auto]. intros [H | [H | [H | []]]]; discriminate.
    + split.
      * intros _. split; [eauto|].
        intros e [H | [H | [H | []]]]; discriminate.
      * intros old ->. reflexivity.
Qed.

Lemma startup_listens_once_the_table_exists_witness :
  let refused := mkError (Some "42501") "permission denied for schema public" in
  let h' := startup (setupDatabase PgMinimal.tbl)
              (mkHost None [None; Some refused] []) in
  In (CreateTable PgMinimal.tbl) (boot_log h') /\
  In (ConsoleError refused) (boot_log h') /\
  ~ In ClientRelease (boot_log h').
Proof.
  intros refused h'.
  assert (H1 : In (CreateTable PgMinimal.tbl) (boot_log h'))
    by (right; left; reflexivity).
  assert (H2 : In (ConsoleError refused) (boot_log h'))
    by (right; right; left; reflexivity).
  split; [exact H1|]. split; [exact H2|].
  exact (proj2 (proj2 (proj1 startup_listens_once_the_table_exists
                         PgMinimal.tbl None [None; Some refused]))
           refused H1 H2).
Defined.

(** A statement of the third version names a column that the first table
    does not have. *)
Lemma extended_statement_on_minimal_table (cols fields : list string)
    (o : Obj) :
  List.length cols = List.length fields ->
  unknown_col PgMinimal.tbl cols = Some "data_cadastro" ->
  check_stmt Postgres PgMinimal.tbl cols (map (get o) fields)
  = Some (undefined_column Postgres "data_cadastro").
Proof.
  intros Hlen Hun. unfold check_stmt.
  rewrite length_map, Hlen, Nat.eqb_refl, Hun. reflexivity.
Qed.

(** X18. The start-up does not migrate.  When the third version starts on
    the database that the first version set up, and listens, the table still
    has the columns of the first version.  On that table, when the store
    refuses nothing of its own, every create and every update of the third
    version is answered 500 with the error of the missing column
    [data_cadastro], so is every import whose first candidate is an object,
    and nothing is stored. *)
Theorem extended_version_on_the_first_table :
  forall fs1 fs3,
    let h1 := startup (setupDatabase PgMinimal.tbl) (mkHost None fs1 []) in
    let h3 := startup (setupDatabase PgExtended.tbl)
                (mkHost (schema h1) fs3 []) in
    In AppListen (boot_log h1) ->
    In AppListen (boot_log h3) ->
    schema h3 = Some PgMinimal.tbl /\
    (forall o rs n,
        exists w',
          extended_on PgMinimal.tbl (POST_pessoas o) (start rs n [])
          = (Normal (message_error 500 "Erro ao criar pessoa."
                       (undefined_column Postgres "data_cadastro")), w') /\
          rows w' = rs) /\
    (forall id o rs n,
        exists w',
          extended_on PgMinimal.tbl (PUT_pessoas id o) (start rs n [])
          = (Normal (message_error 500 "Erro ao atualizar pessoa."
                       (undefined_column Postgres "data_cadastro")), w') /\
          rows w' = rs) /\
    (forall o rest rs n,
        exists w',
          extended_on PgMinimal.tbl (POST_batch_import (Some o :: rest))
            (start rs n [])
          = (Normal (message_error 500 import_error
                       (undefined_column Postgres "data_cadastro")), w') /\
          rows w' = rs).
Proof.
  intros fs1 fs3 h1 h3 Hup1 Hup3.
  assert (Hs1 : schema h1 = Some PgMinimal.tbl)
    by exact (listening_has_table PgMinimal.tbl None fs1 Hup1).
  assert (Hs3 : schema h3 = Some PgMinimal.tbl).
  { unfold h3. unfold h3 in Hup3. rewrite Hs1 in *.
    exact (listening_has_table PgExtended.tbl (Some PgMinimal.tbl) fs3 Hup3). }
  split; [exact Hs3|]. split; [|split].
  - intros o rs n. unfold extended_on, handle, post_pessoas, try_catch, bind.
    unfold pool_query. rewrite query_insert. cbn [start faults hd].
    unfold run_insert.
    rewrite (@extended_statement_on_minimal_table PgExtended.create_cols
               PgExtended.create_fields o eq_refl eq_refl).
    eexists. split; [reflexivity|]. reflexivity.
  - intros id o rs n. unfold extended_on, handle, put_pessoas, try_catch, bind.
    unfold pool_query. rewrite query_update. cbn [start faults hd].
    unfold run_update.
    rewrite (@extended_statement_on_minimal_table PgExtended.update_cols
               PgExtended.update_fields o eq_refl eq_refl).
    eexists. split; [reflexivity|]. reflexivity.
  - intros o rest rs n. unfold extended_on, handle.
    pose proof (batch_import_outcome PgMinimal.tbl PgExtended.batch_cols
                  PgExtended.batch_fields (Some o :: rest) rs n []) as Hout.
    destruct (post_pessoas_batch_import PgMinimal.tbl PgExtended.batch_cols
                PgExtended.batch_fields (Some o :: rest) (start rs n []))
      as [c w'].
    assert (Hloop : exists w2,
               for_of (Some o :: rest)
                 (turn Postgres PgMinimal.tbl PgExtended.batch_cols
                    PgExtended.batch_fields) 0 (in_transaction rs n [])
               = (Throw (undefined_column Postgres "data_cadastro"), w2)).
    { cbn [for_of]. unfold bind. rewrite import_one_some. cbv zeta.
      cbn [in_transaction faults tl hd]. unfold run_insert.
      rewrite (@extended_statement_on_minimal_table PgExtended.batch_cols
                 PgExtended.batch_fields o eq_refl eq_refl).
      eexists. reflexivity. }
    destruct Hloop as (w2 & Hloop).
    inversion Hout as [cnt w3 Hb Hl Hc | cause Hb | cause w3 Hb Hl
                       | cnt cause w3 Hb Hl Hc]; subst c w';
      try (rewrite Hloop in Hl; discriminate); try discriminate.
    rewrite Hloop in Hl. injection Hl as <- <-.
    eexists. split; reflexivity.
Qed.

Lemma extended_version_on_the_first_table_witness :
  let h1 := startup (setupDatabase PgMinimal.tbl) (mkHost None [] []) in
  let h3 := startup (setupDatabase PgExtended.tbl)
              (mkHost (schema h1) [] []) in
  In AppListen (boot_log h1) /\
  In AppListen (boot_log h3) /\
  schema h3 = Some PgMinimal.tbl.
Proof.
  intros h1 h3.
  assert (H1 : In AppListen (boot_log h1))
    by (right; right; right; left; reflexivity).
  assert (H3 : In AppListen (boot_log h3))
    by (right; right; right; left; reflexivity).
  split; [exact H1|]. split; [exact H3|].
  exact (proj1 (extended_version_on_the_first_table [] [] H1 H3)).
Defined.

(* ================================================================== *)
(** * The status of a create and of an update, case by case *)
(* ================================================================== *)

Lemma has_record_find (id : nat) (rs : list Row) :
  has_record id rs = false <-> find (has_id id) rs = None.
Proof.
  unfold has_record. induction rs as [|r rs IH]; simpl; [tauto|].
  destruct (has_id id r); simpl; [split; discriminate | exact IH].
Qed.

Lemma storable_find (tbl : list Column) (o : Obj) :
  storable tbl o = true <->
  find (fun c => is_null (get o c)) (notnull_cols tbl) = None.
Proof.
  rewrite <- find_null_first. split.
  - intros Hst.
    destruct (find_null tbl (named_cells tbl o)) as [c|] eqn:Hf;
      [|reflexivity].
    rewrite find_null_first in Hf. apply find_some in Hf.
    destruct Hf as [Hin Hnull]. unfold storable in Hst.
    rewrite forallb_forall in Hst. apply Hst in Hin.
    rewrite Hnull in Hin. discriminate.
  - apply find_null_storable.
Qed.

Section StatusPg.

Variable tbl : list Column.
Variables create_cols create_fields update_cols update_fields : list string.
Hypothesis Hcreate : statement_ok tbl create_cols create_fields.
Hypothesis Hupdate : statement_ok tbl update_cols update_fields.

Lemma pg_create_status (o : Obj) (rs : list Row) (n : nat)
    (fs : list (option JsError)) :
  hd None fs = None ->
  exists resp w',
    post_pessoas tbl create_cols create_fields o (start rs n fs)
    = (Normal resp, w') /\
    (status resp = 201 <-> storable tbl o = true /\ key_taken o rs = false) /\
    (status resp = 409 <-> storable tbl o = true /\ key_taken o rs = true) /\
    (status resp = 500 <-> storable tbl o = false).
Proof.
  intros Hfs. rewrite post_pessoas_run. cbv zeta. simpl hd. rewrite Hfs.
  pose proof (run_insert_step Hcreate Postgres o false true
                (pop_fault (log (Query (INSERT create_cols
                                          (map (get o) create_fields)
                                          false true)) (start rs n fs))))
    as Hstep.
  destruct (run_insert _ _ _ _ _ _ _) as [c1 w1]. simpl in Hstep.
  unfold key_taken.
  inversion Hstep as [k Hs Hk Hnew | k Hs Hk Hdup Hig | k Hs Hk Hdup _
                      | Hs Hd _ | c Hs _ Hc Hnull]; subst c1 w1;
    try discriminate; simpl in *; eexists _, _; (split; [reflexivity|]);
    rewrite Hs; try rewrite Hk; try rewrite Hnew; try rewrite Hdup; simpl;
    repeat split; intros; try discriminate; try tauto;
    match goal with H : _ /\ _ |- _ => destruct H; discriminate end.
Qed.

Lemma pg_update_status (id : nat) (o : Obj) (rs : list Row) (n : nat)
    (fs : list (option JsError)) :
  hd None fs = None ->
  exists resp w',
    put_pessoas tbl update_cols update_fields id o (start rs n fs)
    = (Normal resp, w') /\
    (status resp = 404 <-> has_record id rs = false) /\
    (status resp = 200 <->
     has_record id rs = true /\ storable tbl o = true /\
     key_taken o (without id rs) = false) /\
    (status resp = 409 <->
     has_record id rs = true /\ storable tbl o = true /\
     key_taken o (without id rs) = true) /\
    (status resp = 500 <-> has_record id rs = true /\ storable tbl o = false).
Proof.
  intros Hfs. rewrite put_pessoas_run. cbv zeta. simpl hd. rewrite Hfs.
  rewrite (run_update_named Hupdate). simpl rows.
  pose proof (has_record_find id rs) as Hrec.
  pose proof (storable_find tbl o) as Hsto.
  destruct (find (has_id id) rs) as [old|].
  - assert (Hr : has_record id rs = true).
    { destruct (has_record id rs); [reflexivity|].
      destruct Hrec as [Hrec _]. specialize (Hrec eq_refl). discriminate. }
    rewrite Hr.
    destruct (find (fun c => is_null (get o c)) (notnull_cols tbl)) as [c|].
    + assert (Hs : storable tbl o = false).
      { destruct (storable tbl o); [|reflexivity].
        destruct Hsto as [Hsto _]. specialize (Hsto eq_refl). discriminate. }
      rewrite Hs. eexists _, _. split; [reflexivity|]. simpl.
      repeat split; intros; try discriminate; try tauto;
        match goal with H : _ /\ _ |- _ => destruct H as (? & ? & ?);
                                           discriminate end.
    + rewrite (proj2 Hsto eq_refl).
      destruct (key_taken o (without id rs)).
      * eexists _, _. split; [reflexivity|]. simpl.
        repeat split; intros; try discriminate; try tauto;
          match goal with
          | H : _ /\ _ /\ _ |- _ => destruct H as (? & ? & ?); discriminate
          | H : _ /\ _ |- _ => destruct H; discriminate
          end.
      * eexists _, _. split; [reflexivity|]. simpl.
        repeat split; intros; try discriminate; try tauto;
          match goal with
          | H : _ /\ _ /\ _ |- _ => destruct H as (? & ? & ?); discriminate
          | H : _ /\ _ |- _ => destruct H; discriminate
          end.
  - rewrite (proj2 Hrec eq_refl).
    eexists _, _. split; [reflexivity|]. simpl.
    repeat split; intros; try discriminate; try tauto;
      match goal with
      | H : _ /\ _ /\ _ |- _ => destruct H as (? & ? & ?); discriminate
      | H : _ /\ _ |- _ => destruct H; discriminate
      end.
Qed.

End StatusPg.

Lemma sqlite_put_pessoas_run (id : nat) (o : Obj) (w : World) :
  SqliteMinimal.put_pessoas id o w
  = let s := UPDATE SqliteMinimal.cols (map (get o) SqliteMinimal.fields) id in
    match hd None (faults w) with
    | Some e =>
        (Normal (SqliteMinimal.update_failed e), pop_fault (log (Query s) w))
    | None =>
        match run_update Sqlite SqliteMinimal.tbl SqliteMinimal.cols
                (map (get o) SqliteMinimal.fields) id
                (pop_fault (log (Query s) w)) with
        | (Throw e, w1) => (Normal (SqliteMinimal.update_failed e), w1)
        | (Normal result, w1) =>
            if (rowCount result =? 0)%nat
            then (Normal (message_only 404 "Pessoa não encontrada."), w1)
            else
              match hd None (faults w1) with
              | Some e =>
                  (Normal (SqliteMinimal.update_failed e),
                   pop_fault (log (Query (SELECT_BY_ID id)) w1))
              | None =>
                  (Normal (mkResponse 200
                             (JsonRow (hd_error (filter (has_id id)
                                                   (rows w1))))),
                   pop_fault (log (Query (SELECT_BY_ID id)) w1))
              end
        end
    end.
Proof.
  unfold SqliteMinimal.put_pessoas, try_catch, bind, SqliteMinimal.db_call.
  rewrite query_update.
  destruct (hd None (faults w)); [reflexivity|].
  destruct (run_update _ _ _ _ _ _) as [[result|e] w1]; [|reflexivity].
  destruct (rowCount result =? 0)%nat; [reflexivity|].
  rewrite query_select_by_id.
  destruct (hd None (faults w1)); reflexivity.
Qed.

Lemma sqlite_create_status (o : Obj) (rs : list Row) (n : nat)
    (fs : list (option JsError)) :
  hd None fs = None ->
  hd None (tl fs) = None ->
  exists resp w',
    SqliteMinimal.post_pessoas o (start rs n fs) = (Normal resp, w') /\
    (status resp = 201 <->
     storable SqliteMinimal.tbl o = true /\ key_taken o rs = false) /\
    (status resp = 409 <->
     storable SqliteMinimal.tbl o = false \/ key_taken o rs = true).
Proof.
  intros Hfs Hfs2. rewrite sqlite_post_pessoas_run. cbv zeta. simpl hd.
  rewrite Hfs.
  pose proof (run_insert_step sqlite_minimal_ok Sqlite o false false
                (pop_fault (log (Query (INSERT SqliteMinimal.cols
                                          (map (get o) SqliteMinimal.fields)
                                          false false)) (start rs n fs))))
    as Hstep.
  destruct (run_insert _ _ _ _ _ _ _) as [c1 w1]. simpl in Hstep.
  unfold key_taken.
  inversion Hstep as [k Hs Hk Hnew | k Hs Hk Hdup Hig | k Hs Hk Hdup _
                      | Hs Hd Hig | c Hs _ Hc Hnull]; subst c1 w1;
    try discriminate; simpl in *; try rewrite Hfs2;
    eexists _, _; (split; [reflexivity|]);
    rewrite Hs; try rewrite Hk; try rewrite Hnew; try rewrite Hdup; simpl;
    repeat split; intros; try discriminate; try tauto;
    match goal with
    | H : _ /\ _ |- _ => destruct H; discriminate
    | H : _ \/ _ |- _ => destruct H; discriminate
    end.
Qed.

Lemma sqlite_update_status (id : nat) (o : Obj) (rs : list Row) (n : nat)
    (fs : list (option JsError)) :
  hd None fs = None ->
  hd None (tl fs) = None ->
  exists resp w',
    SqliteMinimal.put_pessoas id o (start rs n fs) = (Normal resp, w') /\
    (status resp = 404 <-> has_record id rs = false) /\
    (status resp = 200 <->
     has_record id rs = true /\ storable SqliteMinimal.tbl o = true /\
     key_taken o (without id rs) = false) /\
    (status resp = 409 <->
     has_record id rs = true /\
     (storable SqliteMinimal.tbl o = false \/
      key_taken o (without id rs) = true)).
Proof.
  intros Hfs Hfs2. rewrite sqlite_put_pessoas_run. cbv zeta. simpl hd.
  rewrite Hfs.
  rewrite (run_update_named sqlite_minimal_ok). simpl rows.
  pose proof (has_record_find id rs) as Hrec.
  pose proof (storable_find SqliteMinimal.tbl o) as Hsto.
  destruct (find (has_id id) rs) as [old|].
  - assert (Hr : has_record id rs = true).
    { destruct (has_record id rs); [reflexivity|].
      destruct Hrec as [Hrec _]. specialize (Hrec eq_refl). discriminate. }
    rewrite Hr.
    destruct (find (fun c => is_null (get o c))
                (notnull_cols SqliteMinimal.tbl)) as [c|].
    + assert (Hs : storable SqliteMinimal.tbl o = false).
      { destruct (storable SqliteMinimal.tbl o); [|reflexivity].
        destruct Hsto as [Hsto _]. specialize (Hsto eq_refl). discriminate. }
      rewrite Hs. eexists _, _. split; [reflexivity|]. simpl.
      repeat split; intros; try discriminate; try tauto;
        match goal with
        | H : _ /\ _ /\ _ |- _ => destruct H as (? & ? & ?); discriminate
        end.
    + rewrite (proj2 Hsto eq_refl).
      destruct (key_taken o (without id rs)).
      * eexists _, _. split; [reflexivity|]. simpl.
        repeat split; intros; try discriminate; try tauto;
          match goal with
          | H : _ /\ _ /\ _ |- _ => destruct H as (? & ? & ?); discriminate
          end.
      * simpl. rewrite Hfs2.
        eexists _, _. split; [reflexivity|]. simpl.
        repeat split; intros; try discriminate; try tauto;
          match goal with
          | H : _ /\ (_ \/ _) |- _ => destruct H as (? & [? | ?]); discriminate
          end.
  - rewrite (proj2 Hrec eq_refl).
    eexists _, _. split; [reflexivity|]. simpl.
    repeat split; intros; try discriminate; try tauto;
      match goal with
      | H : _ /\ _ /\ _ |- _ => destruct H as (? & ? & ?); discriminate
      | H : _ /\ _ |- _ => destruct H; discriminate
      end.
Qed.

(** X19. The status of a create, case by case, when the store refuses
    nothing of its own.  The PostgreSQL versions answer 201 exactly when
    the request gives every NOT NULL column and its cnsCpf is not in the
    table, 409 exactly when it gives them and the cnsCpf is in the table,
    and 500 exactly when one of them is missing.  The SQLite version
    answers 201 in the same case and 409 in every other: it has no 500
    for a request that cannot be stored. *)
Theorem create_status_by_case :
  (forall o rs n fs,
      hd None fs = None ->
      exists resp w',
        PgMinimal.post_pessoas o (start rs n fs) = (Normal resp, w') /\
        (status resp = 201 <->
         storable PgMinimal.tbl o = true /\ key_taken o rs = false) /\
        (status resp = 409 <->
         storable PgMinimal.tbl o = true /\ key_taken o rs = true) /\
        (status resp = 500 <-> storable PgMinimal.tbl o = false))
  /\
  (forall o rs n fs,
      hd None fs = None ->
      hd None (tl fs) = None ->
      exists resp w',
        SqliteMinimal.post_pessoas o (start rs n fs) = (Normal resp, w') /\
        (status resp = 201 <->
         storable SqliteMinimal.tbl o = true /\ key_taken o rs = false) /\
        (status resp = 409 <->
         storable SqliteMinimal.tbl o = false \/ key_taken o rs = true))
  /\
  (forall o rs n fs,
      hd None fs = None ->
      exists resp w',
        PgExtended.post_pessoas o (start rs n fs) = (Normal resp, w') /\
        (status resp = 201 <->
         storable PgExtended.tbl o = true /\ key_taken o rs = false) /\
        (status resp = 409 <->
         storable PgExtended.tbl o = true /\ key_taken o rs = true) /\
        (status resp = 500 <-> storable PgExtended.tbl o = false)).
Proof.
  split; [|split].
  - intros o rs n fs Hfs. exact (pg_create_status pg_minimal_create_ok o rs n fs Hfs).
  - exact sqlite_create_status.
  - intros o rs n fs Hfs. exact (pg_create_status pg_extended_create_ok o rs n fs Hfs).
Qed.

Lemma create_status_by_case_witness :
  let ana := candidate "1" "Ana" "ana@x" [] in
  let stored := mkRow 1 (named_cells SqliteMinimal.tbl ana) in
  let unnamed := [("email", Some "bia@x"); ("cnsCpf", Some "2")] in
  hd None (@nil (option JsError)) = None /\
  exists resp w',
    SqliteMinimal.post_pessoas unnamed (start [stored] 1 [])
    = (Normal resp, w') /\
    (status resp = 201 <->
     storable SqliteMinimal.tbl unnamed = true /\
     key_taken unnamed [stored] = false) /\
    (status resp = 409 <->
     storable SqliteMinimal.tbl unnamed = false \/
     key_taken unnamed [stored] = true).
Proof.
  intros ana stored unnamed. split; [reflexivity|].
  exact (proj1 (proj2 create_status_by_case) unnamed [stored] 1 []
           eq_refl eq_refl).
Defined.

(** X20. The status of an update, case by case, when the store refuses
    nothing of its own.  It is 404 exactly when no record has the
    identifier of the route, and 200 exactly when one has it, the body
    gives every NOT NULL column and no other record carries its cnsCpf.
    For a record that exists, the PostgreSQL versions answer 409 exactly
    when the body is complete and another record carries its cnsCpf, and
    500 exactly when a NOT NULL column is missing; the SQLite version
    answers 409 in both cases. *)
Theorem update_status_by_case :
  (forall id o rs n fs,
      hd None fs = None ->
      exists resp w',
        PgMinimal.put_pessoas id o (start rs n fs) = (Normal resp, w') /\
        (status resp = 404 <-> has_record id rs = false) /\
        (status resp = 200 <->
         has_record id rs = true /\ storable PgMinimal.tbl o = true /\
         key_taken o (without id rs) = false) /\
        (status resp = 409 <->
         has_record id rs = true /\ storable PgMinimal.tbl o = true /\
         key_taken o (without id rs) = true) /\
        (status resp = 500 <->
         has_record id rs = true /\ storable PgMinimal.tbl o = false))
  /\
  (forall id o rs n fs,
      hd None fs = None ->
      hd None (tl fs) = None ->
      exists resp w',
        SqliteMinimal.put_pessoas id o (start rs n fs) = (Normal resp, w') /\
        (status resp = 404 <-> has_record id rs = false) /\
        (status resp = 200 <->
         has_record id rs = true /\ storable SqliteMinimal.tbl o = true /\
         key_taken o (without id rs) = false) /\
        (status resp = 409 <->
         has_record id rs = true /\
         (storable SqliteMinimal.tbl o = false \/
          key_taken o (without id rs) = true)))
  /\
  (forall id o rs n fs,
      hd None fs = None ->
      exists resp w',
        PgExtended.put_pessoas id o (start rs n fs) = (Normal resp, w') /\
        (status resp = 404 <-> has_record id rs = false) /\
        (status resp = 200 <->
         has_record id rs = true /\ storable PgExtended.tbl o = true /\
         key_taken o (without id rs) = false) /\
        (status resp = 409 <->
         has_record id rs = true /\ storable PgExtended.tbl o = true /\
         key_taken o (without id rs) = true) /\
        (status resp = 500 <->
         has_record id rs = true /\ storable PgExtended.tbl o = false)).
Proof.
  split; [|split].
  - intros id o rs n fs Hfs.
    exact (pg_update_status pg_minimal_update_ok id o rs n fs Hfs).
  - exact sqlite_update_status.
  - intros id o rs n fs Hfs.
    exact (pg_update_status pg_extended_update_ok id o rs n fs Hfs).
Qed.

Lemma update_status_by_case_witness :
  let ana := candidate "1" "Ana" "ana@x" [] in
  let bia := candidate "2" "Bia" "bia@x" [] in
  let rs := [mkRow 1 (named_cells PgMinimal.tbl ana);
             mkRow 2 (named_cells PgMinimal.tbl bia)] in
  hd None (@nil (option JsError)) = None /\
  exists resp w',
    PgMinimal.put_pessoas 2 ana (start rs 2 []) = (Normal resp, w') /\
    (status resp = 404 <-> has_record 2 rs = false) /\
    (status resp = 200 <->
     has_record 2 rs = true /\ storable PgMinimal.tbl ana = true /\
     key_taken ana (without 2 rs) = false) /\
    (status resp = 409 <->
     has_record 2 rs = true /\ storable PgMinimal.tbl ana = true /\
     key_taken ana (without 2 rs) = true) /\
    (status resp = 500 <->
     has_record 2 rs = true /\ storable PgMinimal.tbl ana = false).
Proof.
  intros ana bia rs. split; [reflexivity|].
  exact (proj1 update_status_by_case 2 ana rs 2 [] eq_refl).
Defined.
